(** * Polygon visualizer: the viewport core of [src/src/App.tsx]

    A shallow embedding of the component's parsing, bounds, zoom and drag
    logic, and the properties of the specification that concern them.

    Numbers.  A JavaScript number is modelled by [num]: the three special
    values [NaN], [-Infinity], [+Infinity] with their IEEE-754 rules, and the
    finite values as exact rationals.  Rounding, overflow and the sign of zero
    of binary64 are not modelled: finite arithmetic is exact.

    Strings.  A JavaScript string is a sequence of UTF-16 code units,
    [jsstring = list N]; [str] turns a literal into one.

    Built-ins.  [Math.min], [Math.max], [isNaN], [trim], [parseFloat] and
    [JSON.parse] are the runtime's; they are modelled after ECMAScript
    (ECMA-262, and ECMA-404 for the JSON grammar), with the numbers of a
    text read exactly.

    State.  The React component keeps its state in hooks and every handler
    reads the values of the current render and queues replacements.  Each
    handler is embedded as a function from the state record (and the event's
    data) to the next state record; events are handled one at a time. *)

From Stdlib Require Import String Ascii DecimalString.
From Stdlib Require Import QArith Qminmax Qpower ZArith NArith Bool List.
From Stdlib Require Import Lqa Lia.
Import ListNotations.

Local Open Scope Q_scope.

(* ================================================================== *)
(** ** JavaScript numbers *)

Inductive num : Type :=
| NaN
| NegInf
| PosInf
| Fin (q : Q).

Definition isNaN (a : num) : bool :=
  match a with NaN => true | _ => false end.

Definition is_finite (a : num) : bool :=
  match a with Fin _ => true | _ => false end.

Definition num_neg (a : num) : num :=
  match a with
  | NaN => NaN
  | NegInf => PosInf
  | PosInf => NegInf
  | Fin q => Fin (- q)
  end.

(** [a + b] *)
Definition num_add (a b : num) : num :=
  match a, b with
  | NaN, _ | _, NaN => NaN
  | PosInf, NegInf | NegInf, PosInf => NaN
  | PosInf, _ | _, PosInf => PosInf
  | NegInf, _ | _, NegInf => NegInf
  | Fin p, Fin q => Fin (p + q)
  end.

(** [a - b] *)
Definition num_sub (a b : num) : num :=
  match a, b with
  | NaN, _ | _, NaN => NaN
  | PosInf, PosInf | NegInf, NegInf => NaN
  | PosInf, _ | _, NegInf => PosInf
  | NegInf, _ | _, PosInf => NegInf
  | Fin p, Fin q => Fin (p - q)
  end.

(** The infinity whose sign is that of [c] ([NaN] for a zero factor). *)
Definition inf_of_sign (c : comparison) : num :=
  match c with
  | Eq => NaN
  | Lt => NegInf
  | Gt => PosInf
  end.

(** [a * b] *)
Definition num_mul (a b : num) : num :=
  match a, b with
  | NaN, _ | _, NaN => NaN
  | PosInf, PosInf | NegInf, NegInf => PosInf
  | PosInf, NegInf | NegInf, PosInf => NegInf
  | PosInf, Fin q | Fin q, PosInf => inf_of_sign (q ?= 0)
  | NegInf, Fin q | Fin q, NegInf => inf_of_sign (0 ?= q)
  | Fin p, Fin q => Fin (p * q)
  end.

(** [a / b]; a zero divisor counts as [+0]. *)
Definition num_div (a b : num) : num :=
  match a, b with
  | NaN, _ | _, NaN => NaN
  | Fin p, Fin q =>
      if Qeq_bool q 0 then inf_of_sign (p ?= 0) else Fin (p / q)
  | Fin _, _ => Fin 0
  | PosInf, Fin q => if Qle_bool 0 q then PosInf else NegInf
  | NegInf, Fin q => if Qle_bool 0 q then NegInf else PosInf
  | _, _ => NaN
  end.

(** [Math.min(a, b)] *)
Definition Math_min (a b : num) : num :=
  match a, b with
  | NaN, _ | _, NaN => NaN
  | NegInf, _ | _, NegInf => NegInf
  | PosInf, c | c, PosInf => c
  | Fin p, Fin q => if Qle_bool p q then Fin p else Fin q
  end.

(** [Math.max(a, b)] *)
Definition Math_max (a b : num) : num :=
  match a, b with
  | NaN, _ | _, NaN => NaN
  | PosInf, _ | _, PosInf => PosInf
  | NegInf, c | c, NegInf => c
  | Fin p, Fin q => if Qle_bool p q then Fin q else Fin p
  end.

(** [a === b] on numbers *)
Definition strict_eq (a b : num) : bool :=
  match a, b with
  | PosInf, PosInf | NegInf, NegInf => true
  | Fin p, Fin q => Qeq_bool p q
  | _, _ => false
  end.

(** [a <= b] on numbers *)
Definition num_leb (a b : num) : bool :=
  match a, b with
  | NaN, _ | _, NaN => false
  | NegInf, _ | _, PosInf => true
  | Fin p, Fin q => Qle_bool p q
  | _, _ => false
  end.

Definition num_le (a b : num) : Prop := num_leb a b = true.

(** The same number: the special values are equal to themselves, finite
    values are compared as rationals.  (Unlike [===], [NaN] is the same
    value as [NaN].) *)
Definition num_eq (a b : num) : Prop :=
  match a, b with
  | NaN, NaN | NegInf, NegInf | PosInf, PosInf => True
  | Fin p, Fin q => p == q
  | _, _ => False
  end.

Declare Scope num_scope.
Delimit Scope num_scope with num.
Bind Scope num_scope with num.
Infix "+" := num_add : num_scope.
Infix "-" := num_sub : num_scope.
Infix "*" := num_mul : num_scope.
Infix "/" := num_div : num_scope.
Infix "<=" := num_le : num_scope.
Infix "===" := strict_eq (at level 70, no associativity) : num_scope.
Infix "=n=" := num_eq (at level 70, no associativity) : num_scope.

(* ================================================================== *)
(** ** JavaScript strings *)

Definition jsstring : Type := list N.

(** The code units of an ASCII literal. *)
Definition str (s : string) : jsstring :=
  map N_of_ascii (list_ascii_of_string s).

(** [s === t] on strings *)
Fixpoint str_eqb (s t : jsstring) : bool :=
  match s, t with
  | [], [] => true
  | c :: s', d :: t' => (c =? d)%N && str_eqb s' t'
  | _, _ => false
  end.

(** [s] begins with [p]; on a match the rest of [s] is returned. *)
Fixpoint strip_prefix (p s : jsstring) : option jsstring :=
  match p, s with
  | [], _ => Some s
  | c :: p', d :: s' => if (c =? d)%N then strip_prefix p' s' else None
  | _ :: _, [] => None
  end.

Definition starts_with (p s : jsstring) : Prop :=
  exists rest, s = (p ++ rest)%list.

(** The decimal rendering of an array index, as a template literal
    prints it. *)
Definition String_of_index (i : nat) : jsstring :=
  str (NilEmpty.string_of_uint (Nat.to_uint i)).

(** ECMAScript's WhiteSpace and LineTerminator code units, which
    [String.prototype.trim] and [parseFloat] skip. *)
Definition is_white_space (c : N) : bool :=
  ((9 <=? c) && (c <=? 13) || (c =? 32) || (c =? 160) || (c =? 5760)
   || (8192 <=? c) && (c <=? 8202) || (c =? 8232) || (c =? 8233)
   || (c =? 8239) || (c =? 8287) || (c =? 12288) || (c =? 65279))%N.

Fixpoint trimStart (s : jsstring) : jsstring :=
  match s with
  | c :: s' => if is_white_space c then trimStart s' else s
  | [] => []
  end.

Definition trimEnd (s : jsstring) : jsstring :=
  rev (trimStart (rev s)).

(** [s.trim()] *)
Definition trim (s : jsstring) : jsstring :=
  trimEnd (trimStart s).

(* ------------------------------------------------------------------ *)
(** *** Decimal literals *)

Definition is_digit (c : N) : bool := ((48 <=? c) && (c <=? 57))%N.

(** The longest run of decimal digits at the head of [s], as digit
    values, and what follows it. *)
Fixpoint span_digits (s : jsstring) : list Z * jsstring :=
  match s with
  | c :: s' =>
      if is_digit c
      then let (ds, rest) := span_digits s' in (Z.of_N (c - 48) :: ds, rest)
      else ([], s)
  | [] => ([], [])
  end.

Definition digits_value (ds : list Z) : Z :=
  fold_left (fun acc d => acc * 10 + d)%Z ds 0%Z.

(** [m * 10^e] as a rational. *)
Definition decimal (m e : Z) : Q :=
  if (0 <=? e)%Z then inject_Z (m * 10 ^ e)
  else Qmake m (Z.to_pos (10 ^ (- e))).

(** An optional sign. *)
Definition read_sign (s : jsstring) : Z * jsstring :=
  match s with
  | c :: s' =>
      if (c =? 43)%N then (1%Z, s')
      else if (c =? 45)%N then ((-1)%Z, s')
      else (1%Z, s)
  | [] => (1%Z, [])
  end.

(* ------------------------------------------------------------------ *)
(** *** [parseFloat] *)

(** ExponentPart of a StrDecimalLiteral: taken only when complete,
    otherwise the literal ends before it. *)
Definition read_exponent (s : jsstring) : Z :=
  match s with
  | c :: s1 =>
      if ((c =? 101) || (c =? 69))%N then
        let (sign, s2) := read_sign s1 in
        match fst (span_digits s2) with
        | [] => 0%Z
        | ds => (sign * digits_value ds)%Z
        end
      else 0%Z
  | [] => 0%Z
  end.

(** The value of the longest prefix that is a StrUnsignedDecimalLiteral. *)
Definition read_unsigned_literal (s : jsstring) : option num :=
  match strip_prefix (str "Infinity") s with
  | Some _ => Some PosInf
  | None =>
      let (ip, s1) := span_digits s in
      match s1 with
      | c :: s2 =>
          if (c =? 46)%N then
            let (fp, s3) := span_digits s2 in
            match ip, fp with
            | [], [] => None
            | _, _ =>
                Some (Fin (decimal (digits_value (ip ++ fp)%list)
                                   (read_exponent s3 - Z.of_nat (List.length fp))))
            end
          else
            match ip with
            | [] => None
            | _ => Some (Fin (decimal (digits_value ip) (read_exponent s1)))
            end
      | [] =>
          match ip with
          | [] => None
          | _ => Some (Fin (decimal (digits_value ip) 0))
          end
      end
  end.

(** [parseFloat(s)] *)
Definition parseFloat (s : jsstring) : num :=
  let t := trimStart s in
  let (negative, u) :=
    match t with
    | c :: t' =>
        if (c =? 43)%N then (false, t')
        else if (c =? 45)%N then (true, t')
        else (false, t)
    | [] => (false, [])
    end in
  match read_unsigned_literal u with
  | Some v => if negative then num_neg v else v
  | None => NaN
  end.

(* ================================================================== *)
(** ** JSON values and [JSON.parse] *)

Set Warnings "-register-all".

(** What [JSON.parse] can return.  An object keeps its members in source
    order; a repeated key is resolved when the property is read. *)
Inductive JsValue : Type :=
| JNull
| JBool (b : bool)
| JNum (n : num)
| JStr (s : jsstring)
| JArr (elements : list JsValue)
| JObj (members : list (jsstring * JsValue)).

(** The own property [key] of an object literal: the last member of that
    name wins. *)
Fixpoint own_property (key : jsstring) (members : list (jsstring * JsValue))
  : option JsValue :=
  match members with
  | [] => None
  | (k, v) :: rest =>
      match own_property key rest with
      | Some later => Some later
      | None => if str_eqb k key then Some v else None
      end
  end.

Definition is_json_ws (c : N) : bool :=
  ((c =? 32) || (c =? 9) || (c =? 10) || (c =? 13))%N.

Fixpoint skip_ws (s : jsstring) : jsstring :=
  match s with
  | c :: s' => if is_json_ws c then skip_ws s' else s
  | [] => []
  end.

Definition hex_digit (c : N) : option N :=
  if is_digit c then Some (c - 48)%N
  else if ((97 <=? c) && (c <=? 102))%N then Some (c - 87)%N
  else if ((65 <=? c) && (c <=? 70))%N then Some (c - 55)%N
  else None.

Definition hex4 (a b c d : N) : option N :=
  match hex_digit a, hex_digit b, hex_digit c, hex_digit d with
  | Some a', Some b', Some c', Some d' =>
      Some (((a' * 16 + b') * 16 + c') * 16 + d')%N
  | _, _, _, _ => None
  end.

(** The character a single-letter escape stands for. *)
Definition simple_escape (c : N) : option N :=
  if ((c =? 34) || (c =? 92) || (c =? 47))%N then Some c
  else if (c =? 98)%N then Some 8%N
  else if (c =? 102)%N then Some 12%N
  else if (c =? 110)%N then Some 10%N
  else if (c =? 114)%N then Some 13%N
  else if (c =? 116)%N then Some 9%N
  else None.

Definition push_unit (c : N) (r : option (jsstring * jsstring))
  : option (jsstring * jsstring) :=
  match r with
  | Some (units, rest) => Some (c :: units, rest)
  | None => None
  end.

(** The characters of a JSON string up to its closing quote, and what
    follows the quote. *)
Fixpoint read_string (s : jsstring) : option (jsstring * jsstring) :=
  match s with
  | [] => None
  | c :: r =>
      if (c =? 34)%N then Some ([], r)
      else if (c =? 92)%N then
        match r with
        | [] => None
        | e :: r1 =>
            if (e =? 117)%N then
              match r1 with
              | h1 :: h2 :: h3 :: h4 :: r2 =>
                  match hex4 h1 h2 h3 h4 with
                  | Some u => push_unit u (read_string r2)
                  | None => None
                  end
              | _ => None
              end
            else
              match simple_escape e with
              | Some u => push_unit u (read_string r1)
              | None => None
              end
        end
      else if (c <? 32)%N then None
      else push_unit c (read_string r)
  end.

(** The fraction of a JSON number: absent, or a point and at least one
    digit. *)
Definition read_fraction (s : jsstring) : option (list Z * jsstring) :=
  match s with
  | c :: s' =>
      if (c =? 46)%N then
        let (fp, rest) := span_digits s' in
        match fp with [] => None | _ => Some (fp, rest) end
      else Some ([], s)
  | [] => Some ([], [])
  end.

(** The exponent of a JSON number: absent, or [e], an optional sign and
    at least one digit. *)
Definition read_json_exponent (s : jsstring) : option (Z * jsstring) :=
  match s with
  | c :: s' =>
      if ((c =? 101) || (c =? 69))%N then
        let (sign, s1) := read_sign s' in
        let (ds, rest) := span_digits s1 in
        match ds with
        | [] => None
        | _ => Some ((sign * digits_value ds)%Z, rest)
        end
      else Some (0%Z, s)
  | [] => Some (0%Z, [])
  end.

(** The integer part of a JSON number: at least one digit, and no zero
    in front of another digit. *)
Definition int_ok (ip : list Z) : bool :=
  match ip with
  | [] => false
  | d :: more => negb ((d =? 0)%Z && negb (Nat.eqb (List.length more) 0))
  end.

(** A JSON number: [-? int frac? exp?], every part complete. *)
Definition read_number (s : jsstring) : option (num * jsstring) :=
  let (negative, s0) :=
    match s with
    | c :: s' => if (c =? 45)%N then (true, s') else (false, s)
    | [] => (false, [])
    end in
  let (ip, s1) := span_digits s0 in
  if negb (int_ok ip) then None else
  match read_fraction s1 with
  | None => None
  | Some (fp, s2) =>
      match read_json_exponent s2 with
      | None => None
      | Some (e, rest) =>
          let m := digits_value (ip ++ fp)%list in
          let q := decimal (if negative then (- m)%Z else m)
                           (e - Z.of_nat (List.length fp)) in
          Some (Fin q, rest)
      end
  end.

(** Recursive descent over the JSON grammar.  Every call spends one unit
    of [fuel] and every call but the outermost follows a consumed
    character, so the length of the text bounds the fuel needed. *)
Fixpoint parse_value (fuel : nat) (s : jsstring)
  : option (JsValue * jsstring) :=
  match fuel with
  | O => None
  | S fuel' =>
      match skip_ws s with
      | [] => None
      | c :: r =>
          if (c =? 91)%N then
            match skip_ws r with
            | [] => None
            | c' :: r' =>
                if (c' =? 93)%N then Some (JArr [], r')
                else
                  match parse_elements fuel' r with
                  | Some (vs, rest) => Some (JArr vs, rest)
                  | None => None
                  end
            end
          else if (c =? 123)%N then
            match skip_ws r with
            | [] => None
            | c' :: r' =>
                if (c' =? 125)%N then Some (JObj [], r')
                else
                  match parse_members fuel' r with
                  | Some (ms, rest) => Some (JObj ms, rest)
                  | None => None
                  end
            end
          else if (c =? 34)%N then
            match read_string r with
            | Some (units, rest) => Some (JStr units, rest)
            | None => None
            end
          else
            match strip_prefix (str "true") (c :: r),
                  strip_prefix (str "false") (c :: r),
                  strip_prefix (str "null") (c :: r) with
            | Some rest, _, _ => Some (JBool true, rest)
            | _, Some rest, _ => Some (JBool false, rest)
            | _, _, Some rest => Some (JNull, rest)
            | None, None, None =>
                match read_number (c :: r) with
                | Some (n, rest) => Some (JNum n, rest)
                | None => None
                end
            end
      end
  end
with parse_elements (fuel : nat) (s : jsstring)
  : option (list JsValue * jsstring) :=
  match fuel with
  | O => None
  | S fuel' =>
      match parse_value fuel' s with
      | None => None
      | Some (v, r) =>
          match skip_ws r with
          | [] => None
          | c :: r' =>
              if (c =? 44)%N then
                match parse_elements fuel' r' with
                | Some (vs, rest) => Some (v :: vs, rest)
                | None => None
                end
              else if (c =? 93)%N then Some ([v], r')
              else None
          end
      end
  end
with parse_members (fuel : nat) (s : jsstring)
  : option (list (jsstring * JsValue) * jsstring) :=
  match fuel with
  | O => None
  | S fuel' =>
      match skip_ws s with
      | [] => None
      | q :: r0 =>
          if negb (q =? 34)%N then None else
          match read_string r0 with
          | None => None
          | Some (key, r1) =>
              match skip_ws r1 with
              | [] => None
              | colon :: r2 =>
                  if negb (colon =? 58)%N then None else
                  match parse_value fuel' r2 with
                  | None => None
                  | Some (v, r3) =>
                      match skip_ws r3 with
                      | [] => None
                      | c :: r4 =>
                          if (c =? 44)%N then
                            match parse_members fuel' r4 with
                            | Some (ms, rest) => Some ((key, v) :: ms, rest)
                            | None => None
                            end
                          else if (c =? 125)%N then Some ([(key, v)], r4)
                          else None
                      end
                  end
              end
          end
      end
  end.

(** The text of a thrown error: the handlers only ever read
    [err.message]. *)
Definition message : Type := jsstring.

(** The message of the [SyntaxError] that [JSON.parse] throws.  Its
    wording differs between engines; one fixed text stands for it. *)
Definition syntax_error_message : message :=
  str "Unexpected token in JSON".

(** [JSON.parse(text)]: the value, or the message of the thrown error. *)
Definition JSON_parse (text : jsstring) : message + JsValue :=
  match parse_value (S (List.length text)) text with
  | Some (v, rest) =>
      match skip_ws rest with
      | [] => inr v
      | _ :: _ => inl syntax_error_message
      end
  | None => inl syntax_error_message
  end.

(* ================================================================== *)
(** ** Geometry records *)

Record Point : Type := mkPoint { x : num; z : num }.

Definition Polygon : Type := list Point.
Definition PolygonSet : Type := list Polygon.

Module Bounds.
Record t : Type := mk { minX : num; minY : num; maxX : num; maxY : num }.
End Bounds.

Module ViewBox.
Record t : Type := mk { minX : num; minY : num; width : num; height : num }.
End ViewBox.

(** An [{x, y}] pair: the drag anchor in screen pixels, the pan offset in
    data units. *)
Module XY.
Record t : Type := mk { x : num; y : num }.
End XY.

Module Tooltip.
Record t : Type :=
  mk { visible : bool; x : num; y : num; content : jsstring }.
End Tooltip.

(** The part of a [React.MouseEvent] the handlers read. *)
Record MouseEvent : Type :=
  mkMouseEvent { button : Z; clientX : num; clientY : num }.

(** The part of [getBoundingClientRect()] the handlers read. *)
Record DOMRect : Type := mkDOMRect {
  rect_left : num;
  rect_top : num;
  rect_width : num;
  rect_height : num
}.

(* ================================================================== *)
(** ** [calculateBounds] *)

Local Open Scope num_scope.

(** The body of the inner [forEach] (and of the custom-point block). *)
Definition includePoint (b : Bounds.t) (point : Point) : Bounds.t :=
  {| Bounds.minX := Math_min (Bounds.minX b) (x point);
     Bounds.maxX := Math_max (Bounds.maxX b) (x point);
     Bounds.minY := Math_min (Bounds.minY b) (z point);
     Bounds.maxY := Math_max (Bounds.maxY b) (z point) |}.

Definition is_null {A : Type} (o : option A) : bool :=
  match o with None => true | Some _ => false end.

Definition calculateBounds (polygons : PolygonSet) (customPoint : option Point)
  : Bounds.t :=
  if Nat.eqb (List.length polygons) 0 && is_null customPoint
  then Bounds.mk (Fin 0) (Fin 0) (Fin 100) (Fin 100)
  else
      let b0 := Bounds.mk PosInf PosInf NegInf NegInf in
      (* Include polygon points *)
      let b1 :=
        fold_left (fun b polygon => fold_left includePoint polygon b)
                  polygons b0 in
      (* Include custom point if it exists *)
      let b2 :=
        match customPoint with
        | Some p => includePoint b1 p
        | None => b1
        end in
      (* Handle case where we only have a single point *)
      let b3 :=
        if (Bounds.minX b2 === Bounds.maxX b2)
           && (Bounds.minY b2 === Bounds.maxY b2)
        then Bounds.mk (Bounds.minX b2 - Fin 5) (Bounds.minY b2 - Fin 5)
                       (Bounds.maxX b2 + Fin 5) (Bounds.maxY b2 + Fin 5)
        else b2 in
      (* Add padding *)
      let padding :=
        Math_max (Bounds.maxX b3 - Bounds.minX b3)
                 (Bounds.maxY b3 - Bounds.minY b3) * Fin 0.1 in
      Bounds.mk (Bounds.minX b3 - padding) (Bounds.minY b3 - padding)
                (Bounds.maxX b3 + padding) (Bounds.maxY b3 + padding).




(* ================================================================== *)
(** ** Component state *)

Record State : Type := mkState {
  polygons : PolygonSet;
  inputText : jsstring;
  error : jsstring;
  xCoordinate : jsstring;
  zCoordinate : jsstring;
  customPoint : option Point;
  viewBox : ViewBox.t;
  zoom : num;
  tooltip : Tooltip.t;
  isDragging : bool;
  dragStart : option XY.t;
  panOffset : XY.t
}.

(** The values the [useState] calls start from. *)
Definition initialState : State :=
  {| polygons := [];
     inputText := [];
     error := [];
     xCoordinate := [];
     zCoordinate := [];
     customPoint := None;
     viewBox := ViewBox.mk (Fin 0) (Fin 0) (Fin 100) (Fin 100);
     zoom := Fin 1;
     tooltip := Tooltip.mk false (Fin 0) (Fin 0) [];
     isDragging := false;
     dragStart := None;
     panOffset := XY.mk (Fin 0) (Fin 0) |}.

Definition setPolygons (v : PolygonSet) (s : State) : State :=
  mkState v (inputText s) (error s) (xCoordinate s) (zCoordinate s)
          (customPoint s) (viewBox s) (zoom s) (tooltip s) (isDragging s)
          (dragStart s) (panOffset s).

Definition setInputText (v : jsstring) (s : State) : State :=
  mkState (polygons s) v (error s) (xCoordinate s) (zCoordinate s)
          (customPoint s) (viewBox s) (zoom s) (tooltip s) (isDragging s)
          (dragStart s) (panOffset s).

Definition setError (v : jsstring) (s : State) : State :=
  mkState (polygons s) (inputText s) v (xCoordinate s) (zCoordinate s)
          (customPoint s) (viewBox s) (zoom s) (tooltip s) (isDragging s)
          (dragStart s) (panOffset s).

Definition setXCoordinate (v : jsstring) (s : State) : State :=
  mkState (polygons s) (inputText s) (error s) v (zCoordinate s)
          (customPoint s) (viewBox s) (zoom s) (tooltip s) (isDragging s)
          (dragStart s) (panOffset s).

Definition setZCoordinate (v : jsstring) (s : State) : State :=
  mkState (polygons s) (inputText s) (error s) (xCoordinate s) v
          (customPoint s) (viewBox s) (zoom s) (tooltip s) (isDragging s)
          (dragStart s) (panOffset s).

Definition setCustomPoint (v : option Point) (s : State) : State :=
  mkState (polygons s) (inputText s) (error s) (xCoordinate s) (zCoordinate s)
          v (viewBox s) (zoom s) (tooltip s) (isDragging s)
          (dragStart s) (panOffset s).

Definition setViewBox (v : ViewBox.t) (s : State) : State :=
  mkState (polygons s) (inputText s) (error s) (xCoordinate s) (zCoordinate s)
          (customPoint s) v (zoom s) (tooltip s) (isDragging s)
          (dragStart s) (panOffset s).

(** [setZoom] takes the updater function, as the handlers call it. *)
Definition setZoom (f : num -> num) (s : State) : State :=
  mkState (polygons s) (inputText s) (error s) (xCoordinate s) (zCoordinate s)
          (customPoint s) (viewBox s) (f (zoom s)) (tooltip s) (isDragging s)
          (dragStart s) (panOffset s).

(** [setTooltip] takes the updater function too. *)
Definition setTooltip (f : Tooltip.t -> Tooltip.t) (s : State) : State :=
  mkState (polygons s) (inputText s) (error s) (xCoordinate s) (zCoordinate s)
          (customPoint s) (viewBox s) (zoom s) (f (tooltip s)) (isDragging s)
          (dragStart s) (panOffset s).

Definition setIsDragging (v : bool) (s : State) : State :=
  mkState (polygons s) (inputText s) (error s) (xCoordinate s) (zCoordinate s)
          (customPoint s) (viewBox s) (zoom s) (tooltip s) v
          (dragStart s) (panOffset s).

Definition setDragStart (v : option XY.t) (s : State) : State :=
  mkState (polygons s) (inputText s) (error s) (xCoordinate s) (zCoordinate s)
          (customPoint s) (viewBox s) (zoom s) (tooltip s) (isDragging s)
          v (panOffset s).

Definition setPanOffset (v : XY.t) (s : State) : State :=
  mkState (polygons s) (inputText s) (error s) (xCoordinate s) (zCoordinate s)
          (customPoint s) (viewBox s) (zoom s) (tooltip s) (isDragging s)
          (dragStart s) v.

(* ================================================================== *)
(** ** [updateViewBox] *)

(** The view box [updateViewBox] stores for a polygon set and custom
    point. *)
Definition fitViewBox (polygons : PolygonSet) (customPoint : option Point)
  : ViewBox.t :=
  let bounds := calculateBounds polygons customPoint in
  let width := Bounds.maxX bounds - Bounds.minX bounds in
  let height := Bounds.maxY bounds - Bounds.minY bounds in
  {| ViewBox.minX := Bounds.minX bounds;
     ViewBox.minY := Bounds.minY bounds;
     ViewBox.width := width;
     ViewBox.height := height |}.

Definition updateViewBox (polygons : PolygonSet) (customPoint : option Point)
  (s : State) : State :=
  let s := setViewBox (fitViewBox polygons customPoint) s in
  (* Reset pan offset when updating view box *)
  setPanOffset (XY.mk (Fin 0) (Fin 0)) s.

(* ================================================================== *)
(** ** [parsePolygons] *)

(** A computation that returns a value ([inr]) or throws an error with a
    message ([inl]). *)
Definition throws (A : Type) : Type := (message + A)%type.

Definition bind {A B : Type} (c : throws A) (k : A -> throws B) : throws B :=
  match c with
  | inl m => inl m
  | inr a => k a
  end.

Notation "v <- c ;; k" := (bind c (fun v => k))
  (at level 61, c at next level, right associativity).

(** [point.hasOwnProperty(key)].  The method is found on
    [Object.prototype] unless the object has a member of that name, which
    JSON cannot make callable; [null] has no properties at all.  The two
    [TypeError] texts are V8's. *)
Definition hasOwnProperty (point : JsValue) (key : jsstring) : throws bool :=
  match point with
  | JNull =>
      inl (str "Cannot read properties of null (reading 'hasOwnProperty')")
  | JObj members =>
      match own_property (str "hasOwnProperty") members with
      | Some _ => inl (str "point.hasOwnProperty is not a function")
      | None => inr (negb (is_null (own_property key members)))
      end
  | _ => inr false
  end.

(** [point.x] and [point.z] when [typeof] says ['number'] for both. *)
Definition numeric_fields (point : JsValue) : option Point :=
  match point with
  | JObj members =>
      match own_property (str "x") members, own_property (str "z") members with
      | Some (JNum a), Some (JNum b) => Some (mkPoint a b)
      | _, _ => None
      end
  | _ => None
  end.

(** The callback of [polygon.forEach((point, j) => ...)]. *)
Definition checkPoint (i j : nat) (point : JsValue) : throws Point :=
  hasX <- hasOwnProperty point (str "x") ;;
  hasZ <- (if hasX then hasOwnProperty point (str "z") else inr false) ;;
  if negb hasX || negb hasZ then
    inl (str "Point " ++ String_of_index j ++ str " in polygon "
         ++ String_of_index i ++ str " must have x and z properties")%list
  else
    match numeric_fields point with
    | Some p => inr p
    | None =>
        inl (str "Point " ++ String_of_index j ++ str " in polygon "
             ++ String_of_index i
             ++ str " must have numeric x and z values")%list
    end.

Fixpoint checkPoints (i j : nat) (points : list JsValue)
  : throws (list Point) :=
  match points with
  | [] => inr []
  | point :: rest =>
      p <- checkPoint i j point ;;
      ps <- checkPoints i (S j) rest ;;
      inr (p :: ps)
  end.

(** The callback of [parsed.forEach((polygon, i) => ...)]. *)
Definition checkPolygon (i : nat) (polygon : JsValue) : throws Polygon :=
  match polygon with
  | JArr points => checkPoints i 0 points
  | _ =>
      inl (str "Polygon " ++ String_of_index i
           ++ str " must be an array")%list
  end.

Fixpoint checkPolygons (i : nat) (parsed : list JsValue)
  : throws PolygonSet :=
  match parsed with
  | [] => inr []
  | polygon :: rest =>
      p <- checkPolygon i polygon ;;
      ps <- checkPolygons (S i) rest ;;
      inr (p :: ps)
  end.

(** The [try] block after [JSON.parse]: the array test and
    "Validate structure".  The value it lets through is returned with
    the [x] and [z] of each point, the only properties read later. *)
Definition validateStructure (parsed : JsValue) : throws PolygonSet :=
  match parsed with
  | JArr polygons => checkPolygons 0 polygons
  | _ => inl (str "Input must be an array")
  end.

Definition parsePolygons (text : jsstring) : throws PolygonSet :=
  match (parsed <- JSON_parse text ;; validateStructure parsed) with
  | inr parsed => inr parsed
  | inl err_message =>
      inl (str "Invalid JSON format: " ++ err_message)%list
  end.

(* ================================================================== *)
(** ** Event handlers *)

Definition handleInputChange (text : jsstring) (st : State) : State :=
  let s := setInputText text st in
  let s := setError [] s in
  if str_eqb (trim text) [] then
    let s := setPolygons [] s in
    updateViewBox [] (customPoint st) s
  else
    match parsePolygons text with
    | inr parsed =>
        let s := setPolygons parsed s in
        updateViewBox parsed (customPoint st) s
    | inl err_message =>
        let s := setError err_message s in
        setPolygons [] s
    end.

Definition handleCoordinateChange (x z : jsstring) (st : State) : State :=
  let s := setXCoordinate x st in
  let s := setZCoordinate z s in
  (* Parse and validate coordinates *)
  let xNum := parseFloat x in
  let zNum := parseFloat z in
  if str_eqb (trim x) [] || str_eqb (trim z) [] || isNaN xNum || isNaN zNum
  then
    let s := setCustomPoint None s in
    updateViewBox (polygons st) None s
  else
    let newPoint := mkPoint xNum zNum in
    let s := setCustomPoint (Some newPoint) s in
    updateViewBox (polygons st) (Some newPoint) s.

Definition zoomInStep (prev : num) : num := Math_min (prev * Fin 1.5) (Fin 10).

Definition zoomOutStep (prev : num) : num := Math_max (prev / Fin 1.5) (Fin 0.1).

Definition handleZoomIn (st : State) : State := setZoom zoomInStep st.

Definition handleZoomOut (st : State) : State := setZoom zoomOutStep st.

Definition handleReset (st : State) : State :=
  let s := setZoom (fun _ => Fin 1) st in
  let s := setPanOffset (XY.mk (Fin 0) (Fin 0)) s in
  updateViewBox (polygons st) (customPoint st) s.

Definition hideTooltip (prev : Tooltip.t) : Tooltip.t :=
  Tooltip.mk false (Tooltip.x prev) (Tooltip.y prev) (Tooltip.content prev).

(** [handlePointHover].  [content] is the label the handler builds from
    the polygon index and [toFixed(3)] of the coordinates; the rendering
    of decimals is the runtime's and the text is taken as given. *)
Definition handlePointHover (svg : option DOMRect) (event : MouseEvent)
  (content : jsstring) (st : State) : State :=
  if isDragging st then st (* Don't show tooltip while dragging *)
  else
    match svg with
    | None => st
    | Some rect =>
        setTooltip
          (fun _ =>
             Tooltip.mk true
                        (clientX event - rect_left rect + Fin 10)
                        (clientY event - rect_top rect - Fin 10)
                        content)
          st
    end.

Definition handlePointLeave (st : State) : State := setTooltip hideTooltip st.

(** Mouse drag handlers.  [svg] is [svgRef.current]'s bounding rectangle,
    absent while the element is not mounted. *)
Definition handleMouseDown (event : MouseEvent) (st : State) : State :=
  if negb (button event =? 0)%Z then st (* Only handle left mouse button *)
  else
    let s := setIsDragging true st in
    let s := setDragStart (Some (XY.mk (clientX event) (clientY event))) s in
    setTooltip hideTooltip s.

Definition handleMouseMove (svg : option DOMRect) (event : MouseEvent)
  (st : State) : State :=
  match isDragging st, dragStart st, svg with
  | true, Some start, Some rect =>
      let deltaX := clientX event - XY.x start in
      let deltaY := clientY event - XY.y start in
      (* Convert pixel movement to SVG coordinate movement *)
      let scaleX := (ViewBox.width (viewBox st) / zoom st) / rect_width rect in
      let scaleY :=
        (ViewBox.height (viewBox st) / zoom st) / rect_height rect in
      let newPanOffset :=
        XY.mk (XY.x (panOffset st) - deltaX * scaleX)
              (XY.y (panOffset st) - deltaY * scaleY) in
      let s := setPanOffset newPanOffset st in
      setDragStart (Some (XY.mk (clientX event) (clientY event))) s
  | _, _, _ => st
  end.

Definition handleMouseUp (st : State) : State :=
  setDragStart None (setIsDragging false st).

Definition handleMouseLeave (st : State) : State :=
  setTooltip hideTooltip (setDragStart None (setIsDragging false st)).

(** Calculate the current viewBox with pan offset *)
Definition currentViewBox (st : State) : ViewBox.t :=
  {| ViewBox.minX := ViewBox.minX (viewBox st) + XY.x (panOffset st);
     ViewBox.minY := ViewBox.minY (viewBox st) + XY.y (panOffset st);
     ViewBox.width := ViewBox.width (viewBox st) / zoom st;
     ViewBox.height := ViewBox.height (viewBox st) / zoom st |}.

(** A text literal in which ['] stands for the double quote. *)
Definition json_text (s : string) : jsstring :=
  map (fun c => if (c =? 39)%N then 34%N else c) (str s).

(** Sample data for demonstration *)
Definition sampleData : jsstring := json_text
"[
  [
    {
      'x': 64.02012867449838,
      'z': -83.39716684378219
    },
    {
      'x': 64.61505866154819,
      'z': -80.83689842599303
    },
    {
      'x': 63.421743901647226,
      'z': -85.19053843190402
    }
  ],
  [
    {
      'x': 70.5,
      'z': -75.2
    },
    {
      'x': 72.1,
      'z': -73.8
    },
    {
      'x': 71.3,
      'z': -77.1
    },
    {
      'x': 69.8,
      'z': -76.5
    }
  ]
]".

Definition loadSampleData (st : State) : State :=
  handleInputChange sampleData (setInputText sampleData st).

(* ================================================================== *)
(** ** The component as a state machine *)

(** The events the component reacts to, each with the data its handler
    receives. *)
Inductive Event : Type :=
| InputChange (text : jsstring)
| CoordinateChange (x z : jsstring)
| ZoomIn
| ZoomOut
| Reset
| LoadSample
| PointHover (svg : option DOMRect) (event : MouseEvent) (content : jsstring)
| PointLeave
| MouseDown (event : MouseEvent)
| MouseMove (svg : option DOMRect) (event : MouseEvent)
| MouseUp
| MouseLeave.

Definition step (st : State) (ev : Event) : State :=
  match ev with
  | InputChange text => handleInputChange text st
  | CoordinateChange x z => handleCoordinateChange x z st
  | ZoomIn => handleZoomIn st
  | ZoomOut => handleZoomOut st
  | Reset => handleReset st
  | LoadSample => loadSampleData st
  | PointHover svg event content => handlePointHover svg event content st
  | PointLeave => handlePointLeave st
  | MouseDown event => handleMouseDown event st
  | MouseMove svg event => handleMouseMove svg event st
  | MouseUp => handleMouseUp st
  | MouseLeave => handleMouseLeave st
  end.

(** The state after a sequence of events, from the initial render. *)
Definition run (events : list Event) : State :=
  fold_left step events initialState.

(* ================================================================== *)
(** ** Vocabulary of the properties *)

Definition finite_point (p : Point) : Prop :=
  is_finite (x p) = true /\ is_finite (z p) = true.

Definition point_no_NaN (p : Point) : Prop :=
  isNaN (x p) = false /\ isNaN (z p) = false.

(** A value a lower edge can take: finite or [-Infinity]. *)
Definition is_lower (a : num) : bool :=
  match a with Fin _ | NegInf => true | _ => false end.

(** A value an upper edge can take: finite or [+Infinity]. *)
Definition is_upper (a : num) : bool :=
  match a with Fin _ | PosInf => true | _ => false end.

(** A rectangle whose edges are in order on both axes. *)
Definition proper (b : Bounds.t) : Prop :=
  is_lower (Bounds.minX b) = true /\ is_upper (Bounds.maxX b) = true /\
  is_lower (Bounds.minY b) = true /\ is_upper (Bounds.maxY b) = true /\
  Bounds.minX b <= Bounds.maxX b /\ Bounds.minY b <= Bounds.maxY b.

(** The rectangle [b] contains the point [p], [z] taken as the vertical
    coordinate. *)
Definition contains (b : Bounds.t) (p : Point) : Prop :=
  Bounds.minX b <= x p /\ x p <= Bounds.maxX b /\
  Bounds.minY b <= z p /\ z p <= Bounds.maxY b.

(** Every point the bounds are folded over, in the order of the fold. *)
Definition all_points (polygons : PolygonSet) (customPoint : option Point)
  : list Point :=
  (concat polygons ++ match customPoint with Some p => [p] | None => [] end)%list.

(** The steps of [calculateBounds] after the fold. *)
Definition expand_and_pad (b2 : Bounds.t) : Bounds.t :=
  let b3 :=
    if (Bounds.minX b2 === Bounds.maxX b2)
       && (Bounds.minY b2 === Bounds.maxY b2)
    then Bounds.mk (Bounds.minX b2 - Fin 5) (Bounds.minY b2 - Fin 5)
                   (Bounds.maxX b2 + Fin 5) (Bounds.maxY b2 + Fin 5)
    else b2 in
  let padding :=
    Math_max (Bounds.maxX b3 - Bounds.minX b3)
             (Bounds.maxY b3 - Bounds.minY b3) * Fin 0.1 in
  Bounds.mk (Bounds.minX b3 - padding) (Bounds.minY b3 - padding)
            (Bounds.maxX b3 + padding) (Bounds.maxY b3 + padding).

(** A finite rectangle, given by its four edges. *)
Definition rect (a c d e : Q) : Bounds.t :=
  Bounds.mk (Fin a) (Fin c) (Fin d) (Fin e).

(** The point [p] is the point [(x0, z0)]. *)
Definition same_point (x0 z0 : Q) (p : Point) : Prop :=
  x p =n= Fin x0 /\ z p =n= Fin z0.

(** A zoom factor within [[0.1, 10]]. *)
Definition zoom_in_range (zm : num) : Prop :=
  exists q, zm = Fin q /\ (0.1 <= q <= 10)%Q.

Definition XY_eq (a b : XY.t) : Prop :=
  XY.x a =n= XY.x b /\ XY.y a =n= XY.y b.

(** The pointer event at screen position [(px, py)]. *)
Definition pointer_at (px py : Q) : MouseEvent :=
  mkMouseEvent 0 (Fin px) (Fin py).

Definition error_prefix : jsstring := str "Invalid JSON format: ".

(** The stored view box is the fit of the stored polygon set and custom
    point. *)
Definition viewBox_fits (st : State) : Prop :=
  viewBox st = fitViewBox (polygons st) (customPoint st).

(** Every number inside the value is finite. *)
Fixpoint all_finite (v : JsValue) : bool :=
  match v with
  | JNum n => is_finite n
  | JArr elements => forallb all_finite elements
  | JObj members =>
      forallb (fun member => match member with (_, w) => all_finite w end)
              members
  | _ => true
  end.

(* ================================================================== *)
(** ** Vocabulary of the further properties *)

(** The same point, coordinate by coordinate. *)
Definition point_eq (p q : Point) : Prop :=
  x p =n= x q /\ z p =n= z q.

(** The same rectangle, edge by edge. *)
Definition bounds_eq (b b' : Bounds.t) : Prop :=
  Bounds.minX b =n= Bounds.minX b' /\ Bounds.minY b =n= Bounds.minY b' /\
  Bounds.maxX b =n= Bounds.maxX b' /\ Bounds.maxY b =n= Bounds.maxY b'.

(** [lo] is the least of the numbers [vals]. *)
Definition least (lo : Q) (vals : list num) : Prop :=
  (forall v, In v vals -> Fin lo <= v)
  /\ (exists v, In v vals /\ v =n= Fin lo).

(** [hi] is the greatest of the numbers [vals]. *)
Definition greatest (hi : Q) (vals : list num) : Prop :=
  (forall v, In v vals -> v <= Fin hi)
  /\ (exists v, In v vals /\ v =n= Fin hi).

(** [[xmin, xmax] x [zmin, zmax]] is the tight box around the points. *)
Definition bounding_box (points : list Point) (xmin zmin xmax zmax : Q)
  : Prop :=
  least xmin (map x points) /\ least zmin (map z points) /\
  greatest xmax (map x points) /\ greatest zmax (map z points).

(** The distance [calculateBounds] leaves between the tight box and the
    rectangle it returns: 5 + 1 around a single point, a tenth of the
    larger side otherwise. *)
Definition margin (xmin zmin xmax zmax : Q) : Q :=
  if Qeq_bool xmin xmax && Qeq_bool zmin zmax then 6%Q
  else (Qmax (xmax - xmin) (zmax - zmin) * 0.1)%Q.

(** The point moved by [(dx, dz)]. *)
Definition translate (dx dz : Q) (p : Point) : Point :=
  mkPoint (x p + Fin dx) (z p + Fin dz).

Definition shift_bounds (dx dz : Q) (b : Bounds.t) : Bounds.t :=
  Bounds.mk (Bounds.minX b + Fin dx) (Bounds.minY b + Fin dz)
            (Bounds.maxX b + Fin dx) (Bounds.maxY b + Fin dz).

(** The two lists hold the same points, whatever their order and
    repetitions. *)
Definition same_points (l l' : list Point) : Prop :=
  (forall p, In p l -> exists q, In q l' /\ point_eq p q)
  /\ (forall q, In q l' -> exists p, In p l /\ point_eq p q).

(** The point [p] is inside the rectangle a view box describes. *)
Definition in_view (v : ViewBox.t) (p : Point) : Prop :=
  ViewBox.minX v <= x p /\ x p <= ViewBox.minX v + ViewBox.width v /\
  ViewBox.minY v <= z p /\ z p <= ViewBox.minY v + ViewBox.height v.

(** The JSON value [v] is an object that gives the point [p]: its own
    properties [x] and [z] are the numbers [x p] and [z p], and it has no
    own property that hides the method [hasOwnProperty]. *)
Definition point_value (v : JsValue) (p : Point) : Prop :=
  exists members,
    v = JObj members
    /\ own_property (str "hasOwnProperty") members = None
    /\ own_property (str "x") members = Some (JNum (x p))
    /\ own_property (str "z") members = Some (JNum (z p)).

(** The JSON value [v] is an array whose elements give the points of
    [polygon], in order. *)
Definition polygon_value (v : JsValue) (polygon : Polygon) : Prop :=
  exists points, v = JArr points /\ Forall2 point_value points polygon.

(* ================================================================== *)
(** ** The rest of the component *)

(** The [onChange] handlers of the two coordinate inputs: each passes the
    new value of its field and the stored value of the other. *)
Definition onXCoordinateChange (value : jsstring) (st : State) : State :=
  handleCoordinateChange value (zCoordinate st) st.

Definition onZCoordinateChange (value : jsstring) (st : State) : State :=
  handleCoordinateChange (xCoordinate st) value st.

(** [getPolygonColor]: [colors[index % colors.length]], [None] standing
    for [undefined]. *)
Definition colors : list jsstring :=
  [str "#3B82F6"; str "#EF4444"; str "#10B981"; str "#F59E0B";
   str "#8B5CF6"; str "#EC4899"; str "#06B6D4"; str "#84CC16"].

Definition getPolygonColor (index : nat) : option jsstring :=
  nth_error colors (index mod List.length colors).

(** The gestures that act on the view only: zoom buttons, hovering and
    dragging. *)
Definition is_view_gesture (ev : Event) : bool :=
  match ev with
  | ZoomIn | ZoomOut | PointHover _ _ _ | PointLeave
  | MouseDown _ | MouseMove _ _ | MouseUp | MouseLeave => true
  | InputChange _ | CoordinateChange _ _ | Reset | LoadSample => false
  end.

(** The custom point two field texts describe. *)
Definition customPoint_of (xText zText : jsstring) : option Point :=
  if isNaN (parseFloat xText) || isNaN (parseFloat zText) then None
  else Some (mkPoint (parseFloat xText) (parseFloat zText)).

(** The polygon set and the error message a text stands for. *)
Definition parse_outcome (text : jsstring) : PolygonSet * jsstring :=
  if str_eqb (trim text) [] then ([], [])
  else
    match parsePolygons text with
    | inr parsed => (parsed, [])
    | inl err_message => ([], err_message)
    end.

(** The state after the pointer has moved, during a drag, through the
    screen positions of [path] in turn. *)
Definition drag_through (svg : option DOMRect) (path : list (Q * Q))
  (st : State) : State :=
  fold_left
    (fun s pos => handleMouseMove svg (pointer_at (fst pos) (snd pos)) s)
    path st.

(* ================================================================== *)
(** * Properties *)

(** ** Reasoning about [num] *)

Lemma Qle_bool_false (a b : Q) : Qle_bool a b = false -> (b < a)%Q.
Proof.
  intro H. apply Qnot_le_lt. intro Hle.
  apply Qle_bool_iff in Hle. congruence.
Qed.

(** Turns the boolean tests of the rationals in the context and the goal
    into their propositions. *)
Ltac qprop :=
  repeat match goal with
  | H : Qle_bool _ _ = true |- _ => apply Qle_bool_iff in H
  | H : Qle_bool _ _ = false |- _ => apply Qle_bool_false in H
  | H : Qeq_bool _ _ = true |- _ => apply Qeq_bool_iff in H
  | H : Qeq_bool _ _ = false |- _ => apply Qeq_bool_neq in H
  | |- Qle_bool _ _ = true => apply Qle_bool_iff
  | |- Qeq_bool _ _ = true => apply Qeq_bool_iff
  end.

Lemma num_le_Fin (a b : Q) : (Fin a <= Fin b) <-> (a <= b)%Q.
Proof. unfold num_le; simpl. apply Qle_bool_iff. Qed.

(** ** Bounds *)

Lemma fold_polygons (polygons : PolygonSet) (b : Bounds.t) :
  fold_left (fun b polygon => fold_left includePoint polygon b) polygons b
  = fold_left includePoint (concat polygons) b.
Proof.
  revert b. induction polygons as [|polygon rest IH]; intro b; simpl.
  - reflexivity.
  - rewrite fold_left_app. apply IH.
Qed.

Lemma calculateBounds_fold (polygons : PolygonSet) (cp : option Point) :
  all_points polygons cp <> [] ->
  calculateBounds polygons cp
  = expand_and_pad
      (fold_left includePoint (all_points polygons cp)
                 (Bounds.mk PosInf PosInf NegInf NegInf)).
Proof.
  intro Hne. unfold calculateBounds, all_points in *.
  destruct (Nat.eqb (List.length polygons) 0 && is_null cp) eqn:E.
  - apply andb_true_iff in E. destruct E as [E1 E2].
    destruct polygons; [|discriminate]. destruct cp; [discriminate|].
    now contradiction Hne.
  - rewrite fold_polygons, fold_left_app.
    destruct cp; reflexivity.
Qed.

Lemma includePoint_first (a c : Q) :
  includePoint (Bounds.mk PosInf PosInf NegInf NegInf) (mkPoint (Fin a) (Fin c))
  = rect a c a c.
Proof. reflexivity. Qed.

Lemma includePoint_rect (a c d e u v : Q) :
  exists a' c' d' e',
    includePoint (rect a c d e) (mkPoint (Fin u) (Fin v)) = rect a' c' d' e'
    /\ (a' <= a /\ a' <= u /\ c' <= c /\ c' <= v)%Q
    /\ (d <= d' /\ u <= d' /\ e <= e' /\ v <= e')%Q.
Proof.
  unfold includePoint, rect; simpl.
  destruct (Qle_bool a u) eqn:E1, (Qle_bool d u) eqn:E2,
           (Qle_bool c v) eqn:E3, (Qle_bool e v) eqn:E4;
    qprop; do 4 eexists; (split; [reflexivity|]); lra.
Qed.

Lemma in_all_points_polygon (polygons : PolygonSet) (cp : option Point)
  (polygon : Polygon) (p : Point) :
  In polygon polygons -> In p polygon -> In p (all_points polygons cp).
Proof.
  intros H1 H2. unfold all_points. apply in_or_app. left.
  apply in_concat. now exists polygon.
Qed.

Lemma in_all_points_custom (polygons : PolygonSet) (p : Point) :
  In p (all_points polygons (Some p)).
Proof. unfold all_points. apply in_or_app. right. now left. Qed.

(** *** Minimum and maximum over numbers that are not [NaN] *)

Lemma num_le_refl (a : num) : isNaN a = false -> a <= a.
Proof.
  destruct a; intro H; try discriminate; try reflexivity.
  apply num_le_Fin. lra.
Qed.

Lemma num_le_trans (a b c : num) : a <= b -> b <= c -> a <= c.
Proof.
  unfold num_le.
  destruct a, b, c; simpl; intros H1 H2;
    try discriminate; try reflexivity.
  qprop. lra.
Qed.

Lemma Math_min_spec (a b : num) :
  isNaN a = false -> isNaN b = false ->
  isNaN (Math_min a b) = false
  /\ Math_min a b <= a /\ Math_min a b <= b
  /\ (is_lower a = true \/ is_lower b = true ->
      is_lower (Math_min a b) = true).
Proof.
  unfold num_le.
  destruct a as [| | |p], b as [| | |q]; simpl; intros Ha Hb;
    try discriminate;
    try destruct (Qle_bool p q) eqn:E; simpl;
    repeat split; try reflexivity; try tauto;
    try (intros [H|H]; (discriminate H || reflexivity));
    qprop; lra.
Qed.

Lemma Math_max_spec (a b : num) :
  isNaN a = false -> isNaN b = false ->
  isNaN (Math_max a b) = false
  /\ a <= Math_max a b /\ b <= Math_max a b
  /\ (is_upper a = true \/ is_upper b = true ->
      is_upper (Math_max a b) = true).
Proof.
  unfold num_le.
  destruct a as [| | |p], b as [| | |q]; simpl; intros Ha Hb;
    try discriminate;
    try destruct (Qle_bool p q) eqn:E; simpl;
    repeat split; try reflexivity; try tauto;
    try (intros [H|H]; (discriminate H || reflexivity));
    qprop; lra.
Qed.

Lemma fold_min_spec (l : list num) :
  Forall (fun u => isNaN u = false) l ->
  forall m, isNaN m = false ->
    let r := fold_left Math_min l m in
    isNaN r = false
    /\ r <= m
    /\ (forall u, In u l -> r <= u)
    /\ (is_lower m = true \/ Exists (fun u => is_finite u = true) l ->
        is_lower r = true).
Proof.
  induction 1 as [|u l Hu Hl IH]; intros m Hm; simpl.
  - repeat split; auto using num_le_refl.
    + intros u [].
    + intros [H|H]; [exact H|inversion H].
  - destruct (Math_min_spec m u Hm Hu) as (Hn & Hle_m & Hle_u & Hlow).
    destruct (IH (Math_min m u) Hn) as (Hrn & Hr & Hin & Hrlow).
    repeat split.
    + exact Hrn.
    + eapply num_le_trans; eassumption.
    + intros w [<-|Hw]; [eapply num_le_trans; eassumption|now apply Hin].
    + intros [H|H]; apply Hrlow.
      * left. apply Hlow. now left.
      * inversion H as [? ? Hfin|? ? Hex]; subst.
        -- left. apply Hlow. right. now destruct u.
        -- now right.
Qed.

Lemma fold_max_spec (l : list num) :
  Forall (fun u => isNaN u = false) l ->
  forall m, isNaN m = false ->
    let r := fold_left Math_max l m in
    isNaN r = false
    /\ m <= r
    /\ (forall u, In u l -> u <= r)
    /\ (is_upper m = true \/ Exists (fun u => is_finite u = true) l ->
        is_upper r = true).
Proof.
  induction 1 as [|u l Hu Hl IH]; intros m Hm; simpl.
  - repeat split; auto using num_le_refl.
    + intros u [].
    + intros [H|H]; [exact H|inversion H].
  - destruct (Math_max_spec m u Hm Hu) as (Hn & Hle_m & Hle_u & Hup).
    destruct (IH (Math_max m u) Hn) as (Hrn & Hr & Hin & Hrup).
    repeat split.
    + exact Hrn.
    + eapply num_le_trans; eassumption.
    + intros w [<-|Hw]; [eapply num_le_trans; eassumption|now apply Hin].
    + intros [H|H]; apply Hrup.
      * left. apply Hup. now left.
      * inversion H as [? ? Hfin|? ? Hex]; subst.
        -- left. apply Hup. right. now destruct u.
        -- now right.
Qed.

(** The fold of [includePoint] edge by edge. *)
Lemma fold_includePoint_edges (l : list Point) (b : Bounds.t) :
  let r := fold_left includePoint l b in
  Bounds.minX r = fold_left Math_min (map x l) (Bounds.minX b)
  /\ Bounds.maxX r = fold_left Math_max (map x l) (Bounds.maxX b)
  /\ Bounds.minY r = fold_left Math_min (map z l) (Bounds.minY b)
  /\ Bounds.maxY r = fold_left Math_max (map z l) (Bounds.maxY b).
Proof.
  revert b. induction l as [|p l IH]; intro b; simpl.
  - auto.
  - apply (IH (includePoint b p)).
Qed.

(** The single-point expansion and the padding only move the edges of a
    proper rectangle outwards. *)
Lemma expand_and_pad_grows (b : Bounds.t) :
  proper b ->
  let r := expand_and_pad b in
  Bounds.minX r <= Bounds.minX b /\ Bounds.maxX b <= Bounds.maxX r
  /\ Bounds.minY r <= Bounds.minY b /\ Bounds.maxY b <= Bounds.maxY r.
Proof.
  destruct b as [[| | |a] [| | |c] [| | |d] [| | |e]];
    unfold proper, num_le; simpl; intros (H1 & H2 & H3 & H4 & H5 & H6);
    try discriminate;
    unfold expand_and_pad; simpl;
    repeat match goal with
           | |- context [if ?t then _ else _] =>
               let E := fresh "E" in destruct t eqn:E; simpl
           end;
    repeat split; try reflexivity; qprop; lra.
Qed.

Lemma calculateBounds_contains_all (polygons : PolygonSet)
  (cp : option Point) :
  Forall point_no_NaN (all_points polygons cp) ->
  Exists finite_point (all_points polygons cp) ->
  forall p, In p (all_points polygons cp) ->
            contains (calculateBounds polygons cp) p.
Proof.
  intros Hnan Hfin p Hp.
  rewrite calculateBounds_fold by (intro E; rewrite E in Hp; destruct Hp).
  set (l := all_points polygons cp) in *.
  set (b2 := fold_left includePoint l _).
  destruct (fold_includePoint_edges l (Bounds.mk PosInf PosInf NegInf NegInf))
    as (Ex1 & Ex2 & Ez1 & Ez2).
  fold b2 in Ex1, Ex2, Ez1, Ez2. simpl in Ex1, Ex2, Ez1, Ez2.
  assert (Hx : Forall (fun u => isNaN u = false) (map x l)).
  { apply Forall_map. eapply Forall_impl; [|exact Hnan]. now intros q [? ?]. }
  assert (Hz : Forall (fun u => isNaN u = false) (map z l)).
  { apply Forall_map. eapply Forall_impl; [|exact Hnan]. now intros q [? ?]. }
  assert (Hfx : Exists (fun u => is_finite u = true) (map x l)).
  { apply Exists_map. eapply Exists_impl; [|exact Hfin]. now intros q [? ?]. }
  assert (Hfz : Exists (fun u => is_finite u = true) (map z l)).
  { apply Exists_map. eapply Exists_impl; [|exact Hfin]. now intros q [? ?]. }
  destruct (fold_min_spec _ Hx PosInf eq_refl) as (_ & _ & Hminx & Hlowx).
  destruct (fold_max_spec _ Hx NegInf eq_refl) as (_ & _ & Hmaxx & Hupx).
  destruct (fold_min_spec _ Hz PosInf eq_refl) as (_ & _ & Hminz & Hlowz).
  destruct (fold_max_spec _ Hz NegInf eq_refl) as (_ & _ & Hmaxz & Hupz).
  rewrite <- Ex1 in Hminx, Hlowx. rewrite <- Ex2 in Hmaxx, Hupx.
  rewrite <- Ez1 in Hminz, Hlowz. rewrite <- Ez2 in Hmaxz, Hupz.
  assert (Hall : forall q, In q l -> contains b2 q).
  { intros q Hq. unfold contains. repeat split.
    - apply Hminx. now apply in_map.
    - apply Hmaxx. now apply in_map.
    - apply Hminz. now apply in_map.
    - apply Hmaxz. now apply in_map. }
  assert (Hproper : proper b2).
  { destruct (Hall p Hp) as (P1 & P2 & P3 & P4).
    unfold proper. repeat split; auto; eapply num_le_trans; eassumption. }
  destruct (expand_and_pad_grows b2 Hproper) as (G1 & G2 & G3 & G4).
  destruct (Hall p Hp) as (P1 & P2 & P3 & P4).
  unfold contains. repeat split; eapply num_le_trans; eassumption.
Qed.



(** C5.  With an empty polygon set and no custom point [calculateBounds]
    returns exactly [{minX: 0, minY: 0, maxX: 100, maxY: 100}]: the early
    return, which neither expands nor pads. *)
Theorem calculateBounds_default :
  calculateBounds [] None = Bounds.mk (Fin 0) (Fin 0) (Fin 100) (Fin 100).
Proof. reflexivity. Qed.

Lemma same_point_inv (x0 z0 : Q) (p : Point) :
  same_point x0 z0 p ->
  exists u v, p = mkPoint (Fin u) (Fin v) /\ (u == x0)%Q /\ (v == z0)%Q.
Proof.
  destruct p as [[| | |u] [| | |v]]; intros [H1 H2]; simpl in *;
    try contradiction.
  now exists u, v.
Qed.

Lemma fold_same_point (x0 z0 : Q) (l : list Point) :
  Forall (same_point x0 z0) l ->
  forall a c d e,
    (a == x0 /\ c == z0 /\ d == x0 /\ e == z0)%Q ->
    exists a' c' d' e',
      fold_left includePoint l (rect a c d e) = rect a' c' d' e'
      /\ (a' == x0 /\ c' == z0 /\ d' == x0 /\ e' == z0)%Q.
Proof.
  induction 1 as [|p l Hp Hl IH]; intros a c d e Heq; simpl.
  - now exists a, c, d, e.
  - destruct (same_point_inv x0 z0 p Hp) as (u & v & -> & Hu & Hv).
    destruct (includePoint_rect a c d e u v)
      as (a1 & c1 & d1 & e1 & E & Hlo & Hhi).
    assert (Hsame : (a1 == x0 /\ c1 == z0 /\ d1 == x0 /\ e1 == z0)%Q).
    { revert E. unfold includePoint, rect; simpl.
      destruct (Qle_bool a u), (Qle_bool d u), (Qle_bool c v), (Qle_bool e v);
        intro E; injection E as <- <- <- <-; lra. }
    rewrite E. now apply IH.
Qed.

Lemma expand_and_pad_single (x0 z0 a c d e : Q) :
  (a == x0 /\ c == z0 /\ d == x0 /\ e == z0)%Q ->
  exists a' c' d' e',
    expand_and_pad (rect a c d e) = rect a' c' d' e'
    /\ (a' == x0 - 6 /\ c' == z0 - 6 /\ d' == x0 + 6 /\ e' == z0 + 6)%Q.
Proof.
  intros (Ha & Hc & Hd & He). unfold expand_and_pad, rect; simpl.
  assert (E1 : Qeq_bool a d = true) by (qprop; lra).
  assert (E2 : Qeq_bool c e = true) by (qprop; lra).
  rewrite E1, E2; simpl.
  destruct (Qle_bool (d + 5 - (a - 5)) (e + 5 - (c - 5)));
    do 4 eexists; (split; [reflexivity|]); lra.
Qed.



(** A polygon set that is not empty but has no point (and no custom
    point) is not the default case: the fold leaves the infinities it
    started from, and the view box has an infinite size. *)
Lemma calculateBounds_without_points :
  calculateBounds [[]] None = Bounds.mk PosInf PosInf NegInf NegInf
  /\ parsePolygons (str "[[]]") = inr [[]]
  /\ viewBox (handleInputChange (str "[[]]") initialState)
     = ViewBox.mk PosInf PosInf NegInf NegInf.
Proof. repeat split; vm_compute; reflexivity. Qed.

(** ** Zoom *)

Lemma zoomInStep_in_range (zm : num) :
  zoom_in_range zm -> zoom_in_range (zoomInStep zm).
Proof.
  intros (q & -> & Hq). unfold zoomInStep; simpl.
  destruct (Qle_bool (q * 1.5) 10) eqn:E; qprop;
    eexists; (split; [reflexivity|]); lra.
Qed.

Lemma zoomOutStep_in_range (zm : num) :
  zoom_in_range zm -> zoom_in_range (zoomOutStep zm).
Proof.
  intros (q & -> & Hq). unfold zoomOutStep; simpl.
  destruct (Qle_bool (q / 1.5) 0.1) eqn:E; qprop;
    eexists; (split; [reflexivity|]); try lra.
  split; [lra|]. apply Qle_shift_div_r; lra.
Qed.

Lemma step_zoom_in_range (st : State) (ev : Event) :
  zoom_in_range (zoom st) -> zoom_in_range (zoom (step st ev)).
Proof.
  intro H. destruct ev; cbn [step].
  - unfold handleInputChange.
    destruct (str_eqb (trim text) []); [exact H|].
    destruct (parsePolygons text); exact H.
  - unfold handleCoordinateChange.
    destruct (_ || _); exact H.
  - now apply zoomInStep_in_range.
  - now apply zoomOutStep_in_range.
  - exists 1%Q. split; [reflexivity|lra].
  - unfold loadSampleData, handleInputChange.
    destruct (str_eqb (trim sampleData) []); [exact H|].
    destruct (parsePolygons sampleData); exact H.
  - unfold handlePointHover. destruct (isDragging st), svg; exact H.
  - exact H.
  - unfold handleMouseDown. destruct (negb _); exact H.
  - unfold handleMouseMove.
    destruct (isDragging st), (dragStart st), svg; exact H.
  - exact H.
  - exact H.
Qed.

(** C7.  After any sequence of events from the initial render (zoom 1), and
    so under any sequence of zoom-in [min(z * 1.5, 10)], zoom-out
    [max(z / 1.5, 0.1)] and reset steps, the zoom is a number within
    [[0.1, 10]]; it is never zero, so [width / zoom] and [height / zoom] of
    the effective view never divide by zero. *)
Theorem zoom_stays_in_range (events : list Event) :
  zoom_in_range (zoom (run events))
  /\ (zoom (run events) === Fin 0) = false.
Proof.
  assert (H : zoom_in_range (zoom (run events))).
  { unfold run.
    assert (H0 : zoom_in_range (zoom initialState))
      by (exists 1%Q; split; [reflexivity|lra]).
    revert H0. generalize initialState.
    induction events as [|ev events IH]; intros st Hst; simpl.
    - exact Hst.
    - apply IH. now apply step_zoom_in_range. }
  split; [exact H|].
  destruct H as (q & -> & Hq). simpl.
  destruct (Qeq_bool q 0) eqn:E; [qprop; lra|reflexivity].
Qed.

(** ** Dragging *)

Lemma num_div_Fin (p q : Q) :
  ~ (q == 0)%Q -> Fin p / Fin q = Fin (p / q).
Proof.
  intro Hq. simpl. destruct (Qeq_bool q 0) eqn:E; [|reflexivity].
  qprop. contradiction.
Qed.

(** Subtracting two finite amounts one after the other, or their sum at
    once, from any number. *)
Lemma num_sub_sub (a : num) (p q r : Q) :
  (p + q == r)%Q -> (a - Fin p) - Fin q =n= a - Fin r.
Proof.
  intro H. destruct a as [| | |a0]; simpl; auto. lra.
Qed.

Lemma num_sub_Fin_eq (a : num) (p q : Q) :
  (p == q)%Q -> a - Fin p =n= a - Fin q.
Proof.
  intro H. destruct a as [| | |a0]; simpl; auto. lra.
Qed.

(** One move of a drag in progress, all quantities finite. *)
Lemma handleMouseMove_dragging
  (st : State) (left top : num) (ax ay px py vw vh zm rw rh : Q) :
  isDragging st = true ->
  dragStart st = Some (XY.mk (Fin ax) (Fin ay)) ->
  ViewBox.width (viewBox st) = Fin vw ->
  ViewBox.height (viewBox st) = Fin vh ->
  zoom st = Fin zm -> ~ (zm == 0)%Q -> ~ (rw == 0)%Q -> ~ (rh == 0)%Q ->
  handleMouseMove (Some (mkDOMRect left top (Fin rw) (Fin rh)))
                  (pointer_at px py) st
  = setDragStart (Some (XY.mk (Fin px) (Fin py)))
      (setPanOffset
         (XY.mk (XY.x (panOffset st) - Fin ((px - ax) * (vw / zm / rw)))
                (XY.y (panOffset st) - Fin ((py - ay) * (vh / zm / rh))))
         st).
Proof.
  intros Hdrag Hstart Hvw Hvh Hzm Hzm0 Hrw Hrh.
  unfold handleMouseMove. rewrite Hdrag, Hstart. simpl.
  rewrite Hvw, Hvh, Hzm.
  rewrite !(num_div_Fin _ zm) by assumption.
  rewrite (num_div_Fin _ rw), (num_div_Fin _ rh) by assumption.
  reflexivity.
Qed.



(** ** Parsing *)

(** C10.  Every failure of [parsePolygons] is an error whose message is
    ["Invalid JSON format: "] followed by the message of the error thrown
    inside the [try] block, whether that was [JSON.parse]'s syntax error
    or one of the validation errors (top level not an array, polygon not
    an array, missing field, non-numeric field): the one [catch] wraps them
    all, and the result carries the message text and no other tag. *)
Theorem parsePolygons_failures_wrapped (text : jsstring) :
  (forall m, JSON_parse text = inl m ->
             parsePolygons text = inl (error_prefix ++ m))
  /\ (forall parsed m,
         JSON_parse text = inr parsed -> validateStructure parsed = inl m ->
         parsePolygons text = inl (error_prefix ++ m))
  /\ (forall m, parsePolygons text = inl m -> starts_with error_prefix m).
Proof.
  unfold parsePolygons, bind. repeat split.
  - intros m ->. reflexivity.
  - intros parsed m -> ->. reflexivity.
  - intros m H.
    destruct (JSON_parse text) as [e|parsed].
    + injection H as <-. now exists e.
    + destruct (validateStructure parsed) as [e|ps]; [|discriminate].
      injection H as <-. now exists e.
Qed.

Lemma parsePolygons_failures_wrapped_witness :
  starts_with error_prefix
    (error_prefix ++ str "Point 0 in polygon 0 must have x and z properties").
Proof.
  apply (proj2 (proj2 (parsePolygons_failures_wrapped
                         (json_text "[[{'x':1}]]")))).
  vm_compute. reflexivity.
Defined.

(** The five kinds of failure, each on a text of its kind. *)
Lemma parsePolygons_failure_examples :
  parsePolygons (str "not json")
  = inl (error_prefix ++ syntax_error_message)
  /\ parsePolygons (json_text "{'x':1,'z':2}")
     = inl (error_prefix ++ str "Input must be an array")
  /\ parsePolygons (json_text "[[{'x':1,'z':2}],7]")
     = inl (error_prefix ++ str "Polygon 1 must be an array")
  /\ parsePolygons (json_text "[[{'x':1}]]")
     = inl (error_prefix
            ++ str "Point 0 in polygon 0 must have x and z properties")
  /\ parsePolygons (json_text "[[],[{'x':1,'z':2},{'x':1,'z':'a'}]]")
     = inl (error_prefix
            ++ str "Point 1 in polygon 1 must have numeric x and z values").
Proof. repeat split; vm_compute; reflexivity. Qed.

(** ** Text input *)




(** ** View box *)

Lemma viewBox_fits_initial : viewBox_fits initialState.
Proof. reflexivity. Qed.

(** The two paths of [handleInputChange] that call [updateViewBox]
    re-establish the fit. *)
Lemma handleInputChange_blank_fits (text : jsstring) (st : State) :
  str_eqb (trim text) [] = true ->
  viewBox_fits (handleInputChange text st).
Proof.
  intro H. unfold handleInputChange. rewrite H. reflexivity.
Qed.

Lemma handleInputChange_success_fits
  (text : jsstring) (st : State) (parsed : PolygonSet) :
  str_eqb (trim text) [] = false ->
  parsePolygons text = inr parsed ->
  viewBox_fits (handleInputChange text st).
Proof.
  intros H1 H2. unfold handleInputChange. rewrite H1, H2. reflexivity.
Qed.

Lemma handleCoordinateChange_fits (x z : jsstring) (st : State) :
  viewBox_fits (handleCoordinateChange x z st).
Proof.
  unfold handleCoordinateChange. destruct (_ || _); reflexivity.
Qed.

Lemma handleReset_fits (st : State) : viewBox_fits (handleReset st).
Proof. reflexivity. Qed.

(** C3 at its failing input.  After the sample data has been loaded, the
    text [not json] replaces the polygon set with the empty one, but the
    [catch] branch does not call [updateViewBox]: the stored view box is
    still the fit of the sample polygons, not the fit of the state the
    component now holds. *)
Theorem viewBox_stale_after_parse_failure :
  let st := loadSampleData initialState in
  let st' := handleInputChange (str "not json") st in
  viewBox_fits st
  /\ polygons st' = [] /\ customPoint st' = None
  /\ viewBox st' = viewBox st
  /\ fitViewBox (polygons st') (customPoint st')
     = ViewBox.mk (Fin 0) (Fin 0) (Fin 100) (Fin 100)
  /\ ~ viewBox_fits st'.
Proof.
  intros st st'. repeat split; try (vm_compute; reflexivity).
  unfold viewBox_fits. intro H.
  apply (f_equal ViewBox.minX) in H. vm_compute in H. discriminate H.
Qed.

(** ** Custom point *)

Lemma trimStart_head (s : jsstring) (c : N) (r : jsstring) :
  trimStart s = c :: r -> is_white_space c = false.
Proof.
  induction s as [|d s IH]; simpl; [discriminate|].
  destruct (is_white_space d) eqn:E; [exact IH|].
  intro H. injection H as <- _. exact E.
Qed.

Lemma trimStart_nil (s : jsstring) :
  trimStart s = [] -> forallb is_white_space s = true.
Proof.
  induction s as [|d s IH]; simpl; [reflexivity|].
  destruct (is_white_space d); [exact IH|discriminate].
Qed.

(** A text that [trim] empties has nothing after its leading white space. *)
Lemma trim_nil (s : jsstring) : trim s = [] -> trimStart s = [].
Proof.
  unfold trim, trimEnd. intro H.
  apply (f_equal (@rev N)) in H. rewrite rev_involutive in H. simpl in H.
  apply trimStart_nil in H.
  destruct (trimStart s) as [|c r] eqn:E; [reflexivity|].
  apply trimStart_head in E.
  simpl in H. rewrite forallb_app in H. apply andb_true_iff in H.
  destruct H as [_ H]. simpl in H. rewrite E in H. discriminate H.
Qed.

Lemma str_eqb_nil (s : jsstring) : str_eqb s [] = true -> s = [].
Proof. destruct s; [reflexivity|discriminate]. Qed.

(** [parseFloat] of a blank text is [NaN], so the two [trim] tests of
    [handleCoordinateChange] never decide on their own. *)
Lemma parseFloat_blank (s : jsstring) :
  str_eqb (trim s) [] = true -> parseFloat s = NaN.
Proof.
  intro H. apply str_eqb_nil, trim_nil in H.
  unfold parseFloat. rewrite H. reflexivity.
Qed.



(** A text that only begins with a number is accepted as well, and an
    infinite custom point makes every edge of the bounds [NaN]. *)
Lemma handleCoordinateChange_remarks :
  customPoint (handleCoordinateChange (str "12abc") (str " 7") initialState)
  = Some (mkPoint (Fin 12) (Fin 7))
  /\ calculateBounds [] (Some (mkPoint PosInf (Fin 0)))
     = Bounds.mk NaN NaN NaN NaN.
Proof. split; vm_compute; reflexivity. Qed.

(** ** The fuel of the JSON parser *)

Lemma skip_ws_cons (s : jsstring) (c : N) (r : jsstring) :
  skip_ws s = c :: r -> (S (List.length r) <= List.length s)%nat.
Proof.
  induction s as [|d s IH]; simpl; [discriminate|].
  destruct (is_json_ws d).
  - intro H. apply IH in H. lia.
  - intro H. injection H as _ <-. lia.
Qed.

Lemma strip_prefix_length (p s r : jsstring) :
  strip_prefix p s = Some r ->
  List.length s = (List.length p + List.length r)%nat.
Proof.
  revert s. induction p as [|c p IH]; intros [|d s]; simpl;
    try discriminate.
  - intro H. now injection H as <-.
  - intro H. now injection H as <-.
  - destruct (c =? d)%N; [|discriminate]. intro H. apply IH in H. lia.
Qed.

Lemma read_string_length (s units rest : jsstring) :
  read_string s = Some (units, rest) ->
  (List.length rest < List.length s)%nat.
Proof.
  remember (List.length s) as n eqn:Hn.
  revert s units rest Hn.
  induction n as [n IH] using lt_wf_ind. intros s units rest Hn.
  destruct s as [|c r]; simpl; [discriminate|].
  assert (Hpush : forall u t,
             (List.length t < n)%nat ->
             push_unit u (read_string t) = Some (units, rest) ->
             (List.length rest < n)%nat).
  { intros u t Ht. unfold push_unit.
    destruct (read_string t) as [[us r']|] eqn:E; [|discriminate].
    intro H. injection H as _ <-.
    specialize (IH (List.length t) Ht t us r' eq_refl E). lia. }
  simpl in Hn.
  destruct (c =? 34)%N.
  { intro H. injection H as _ <-. lia. }
  destruct (c =? 92)%N.
  { destruct r as [|e r1]; [discriminate|].
    destruct (e =? 117)%N.
    - destruct r1 as [|h1 [|h2 [|h3 [|h4 r2]]]]; try discriminate.
      destruct (hex4 h1 h2 h3 h4); [|discriminate].
      apply Hpush. simpl in Hn. lia.
    - destruct (simple_escape e); [|discriminate].
      apply Hpush. simpl in Hn. lia. }
  destruct (c <? 32)%N; [discriminate|].
  apply Hpush. lia.
Qed.

Lemma span_digits_length (s : jsstring) :
  List.length s
  = (List.length (fst (span_digits s)) + List.length (snd (span_digits s)))%nat.
Proof.
  induction s as [|c s IH]; simpl; [reflexivity|].
  destruct (is_digit c); [|reflexivity].
  destruct (span_digits s) as [ds rest]. simpl in *. lia.
Qed.

Lemma read_sign_length (s : jsstring) :
  (List.length (snd (read_sign s)) <= List.length s)%nat.
Proof.
  destruct s as [|c s]; simpl; [lia|].
  destruct (c =? 43)%N; [simpl; lia|].
  destruct (c =? 45)%N; simpl; lia.
Qed.

Lemma read_fraction_length (s : jsstring) (fp : list Z) (rest : jsstring) :
  read_fraction s = Some (fp, rest) ->
  (List.length rest <= List.length s)%nat.
Proof.
  destruct s as [|c s']; simpl.
  - intro H. injection H as _ <-. simpl. lia.
  - destruct (c =? 46)%N.
    + pose proof (span_digits_length s') as H'.
      destruct (span_digits s') as [fp' r]. simpl in H'.
      destruct fp'; [discriminate|].
      intro H. injection H as _ <-. lia.
    + intro H. injection H as _ <-. simpl. lia.
Qed.

Lemma read_json_exponent_length (s : jsstring) (e : Z) (rest : jsstring) :
  read_json_exponent s = Some (e, rest) ->
  (List.length rest <= List.length s)%nat.
Proof.
  destruct s as [|c s']; simpl.
  - intro H. injection H as _ <-. simpl. lia.
  - destruct ((c =? 101) || (c =? 69))%N.
    + pose proof (read_sign_length s') as H1.
      destruct (read_sign s') as [sign s1]. simpl in H1.
      pose proof (span_digits_length s1) as H2.
      destruct (span_digits s1) as [ds r]. simpl in H2.
      destruct ds; [discriminate|].
      intro H. injection H as _ <-. lia.
    + intro H. injection H as _ <-. simpl. lia.
Qed.

Lemma read_number_length (s : jsstring) (n : num) (rest : jsstring) :
  read_number s = Some (n, rest) ->
  (List.length rest < List.length s)%nat.
Proof.
  unfold read_number.
  set (s0 := match s with
             | [] => (false, [])
             | c :: s' => if (c =? 45)%N then (true, s') else (false, s)
             end).
  assert (H0 : (List.length (snd s0) <= List.length s)%nat).
  { subst s0. destruct s as [|c s']; simpl; [lia|].
    destruct (c =? 45)%N; simpl; lia. }
  destruct s0 as [negative t]. simpl in H0.
  pose proof (span_digits_length t) as Ht.
  destruct (span_digits t) as [ip s1]. simpl in Ht.
  destruct ip as [|d more]; [discriminate|].
  destruct (negb (int_ok (d :: more))); [discriminate|].
  destruct (read_fraction s1) as [[fp s2]|] eqn:E1; [|discriminate].
  apply read_fraction_length in E1.
  destruct (read_json_exponent s2) as [[e r]|] eqn:E2; [|discriminate].
  apply read_json_exponent_length in E2.
  intro H. injection H as _ <-. simpl in Ht. lia.
Qed.

(** Rewrites with the equations collected while taking [H] apart. *)
Ltac replay :=
  repeat match goal with
         | E : ?t = _ |- context [?t] => rewrite E
         end.

(** A parse that succeeds consumes at least one character, and succeeds
    with the same result on any fuel that is at least the number of
    characters it consumes. *)
Lemma parse_fuel (fuel : nat) :
  (forall s v rest,
      parse_value fuel s = Some (v, rest) ->
      (List.length rest < List.length s)%nat
      /\ forall fuel', (List.length s - List.length rest <= fuel')%nat ->
                       parse_value fuel' s = Some (v, rest))
  /\ (forall s vs rest,
         parse_elements fuel s = Some (vs, rest) ->
         (List.length rest < List.length s)%nat
         /\ forall fuel', (List.length s - List.length rest <= fuel')%nat ->
                          parse_elements fuel' s = Some (vs, rest))
  /\ (forall s ms rest,
         parse_members fuel s = Some (ms, rest) ->
         (List.length rest < List.length s)%nat
         /\ forall fuel', (List.length s - List.length rest <= fuel')%nat ->
                          parse_members fuel' s = Some (ms, rest)).
Proof.
  induction fuel as [|fuel (IHv & IHe & IHm)].
  - repeat split; intros; discriminate.
  - split; [|split].
    + intros s v rest H. cbn [parse_value] in H.
      destruct (skip_ws s) as [|c r] eqn:Es; [discriminate|].
      pose proof (skip_ws_cons _ _ _ Es) as Ls.
      destruct (c =? 91)%N eqn:E91.
      { destruct (skip_ws r) as [|c' r'] eqn:Er; [discriminate|].
        pose proof (skip_ws_cons _ _ _ Er) as Lr.
        destruct (c' =? 93)%N eqn:E93.
        - injection H as <- <-. split; [lia|].
          intros [|f] Hf; [lia|]. cbn [parse_value]. now replay.
        - destruct (parse_elements fuel r) as [[vs rest']|] eqn:Ee;
            [|discriminate].
          injection H as <- <-.
          destruct (IHe _ _ _ Ee) as [Le He]. split; [lia|].
          intros [|f] Hf; [lia|]. cbn [parse_value]. replay.
          rewrite (He f) by lia. reflexivity. }
      destruct (c =? 123)%N eqn:E123.
      { destruct (skip_ws r) as [|c' r'] eqn:Er; [discriminate|].
        pose proof (skip_ws_cons _ _ _ Er) as Lr.
        destruct (c' =? 125)%N eqn:E125.
        - injection H as <- <-. split; [lia|].
          intros [|f] Hf; [lia|]. cbn [parse_value]. now replay.
        - destruct (parse_members fuel r) as [[ms rest']|] eqn:Em;
            [|discriminate].
          injection H as <- <-.
          destruct (IHm _ _ _ Em) as [Lm Hm]. split; [lia|].
          intros [|f] Hf; [lia|]. cbn [parse_value]. replay.
          rewrite (Hm f) by lia. reflexivity. }
      destruct (c =? 34)%N eqn:E34.
      { destruct (read_string r) as [[units rest']|] eqn:Est; [|discriminate].
        injection H as <- <-.
        pose proof (read_string_length _ _ _ Est). split; [lia|].
        intros [|f] Hf; [lia|]. cbn [parse_value]. now replay. }
      destruct (strip_prefix (str "true") (c :: r)) as [rest'|] eqn:Et.
      { injection H as <- <-.
        pose proof (strip_prefix_length _ _ _ Et) as Lt. simpl in Lt.
        split; [lia|].
        intros [|f] Hf; [lia|]. cbn [parse_value]. now replay. }
      destruct (strip_prefix (str "false") (c :: r)) as [rest'|] eqn:Ef.
      { injection H as <- <-.
        pose proof (strip_prefix_length _ _ _ Ef) as Lf. simpl in Lf.
        split; [lia|].
        intros [|f] Hf; [lia|]. cbn [parse_value]. now replay. }
      destruct (strip_prefix (str "null") (c :: r)) as [rest'|] eqn:En.
      { injection H as <- <-.
        pose proof (strip_prefix_length _ _ _ En) as Ln. simpl in Ln.
        split; [lia|].
        intros [|f] Hf; [lia|]. cbn [parse_value]. now replay. }
      destruct (read_number (c :: r)) as [[n rest']|] eqn:Enum;
        [|discriminate].
      injection H as <- <-.
      pose proof (read_number_length _ _ _ Enum) as Lnum. simpl in Lnum.
      split; [lia|].
      intros [|f] Hf; [lia|]. cbn [parse_value]. now replay.
    + intros s vs rest H. cbn [parse_elements] in H.
      destruct (parse_value fuel s) as [[v r]|] eqn:Ev; [|discriminate].
      destruct (IHv _ _ _ Ev) as [Lv Hv].
      destruct (skip_ws r) as [|c r'] eqn:Er; [discriminate|].
      pose proof (skip_ws_cons _ _ _ Er) as Lr.
      destruct (c =? 44)%N eqn:E44.
      * destruct (parse_elements fuel r') as [[vs' rest']|] eqn:Ee;
          [|discriminate].
        injection H as <- <-.
        destruct (IHe _ _ _ Ee) as [Le He]. split; [lia|].
        intros [|f] Hf; [lia|]. cbn [parse_elements].
        rewrite (Hv f) by lia. replay.
        rewrite (He f) by lia. reflexivity.
      * destruct (c =? 93)%N eqn:E93; [|discriminate].
        injection H as <- <-. split; [lia|].
        intros [|f] Hf; [lia|]. cbn [parse_elements].
        rewrite (Hv f) by lia. now replay.
    + intros s ms rest H. cbn [parse_members] in H.
      destruct (skip_ws s) as [|q r0] eqn:Es; [discriminate|].
      pose proof (skip_ws_cons _ _ _ Es) as Ls.
      destruct (negb (q =? 34)%N) eqn:Eq; [discriminate|].
      destruct (read_string r0) as [[key r1]|] eqn:Ek; [|discriminate].
      pose proof (read_string_length _ _ _ Ek) as Lk.
      destruct (skip_ws r1) as [|colon r2] eqn:E1; [discriminate|].
      pose proof (skip_ws_cons _ _ _ E1) as L1.
      destruct (negb (colon =? 58)%N) eqn:Ec; [discriminate|].
      destruct (parse_value fuel r2) as [[v r3]|] eqn:Ev; [|discriminate].
      destruct (IHv _ _ _ Ev) as [Lv Hv].
      destruct (skip_ws r3) as [|c r4] eqn:E3; [discriminate|].
      pose proof (skip_ws_cons _ _ _ E3) as L3.
      destruct (c =? 44)%N eqn:E44.
      * destruct (parse_members fuel r4) as [[ms' rest']|] eqn:Em;
          [|discriminate].
        injection H as <- <-.
        destruct (IHm _ _ _ Em) as [Lm Hm]. split; [lia|].
        intros [|f] Hf; [lia|]. cbn [parse_members]. replay.
        rewrite (Hv f) by lia. replay.
        rewrite (Hm f) by lia. reflexivity.
      * destruct (c =? 125)%N eqn:E125; [|discriminate].
        injection H as <- <-. split; [lia|].
        intros [|f] Hf; [lia|]. cbn [parse_members]. replay.
        rewrite (Hv f) by lia. now replay.
Qed.

(** The fuel [JSON_parse] gives the parser is enough: no larger amount
    would turn its syntax error into a value. *)
Lemma JSON_parse_fuel (text : jsstring) (fuel : nat) (v : JsValue)
  (rest : jsstring) :
  parse_value fuel text = Some (v, rest) ->
  parse_value (S (List.length text)) text = Some (v, rest).
Proof.
  intro H. destruct (parse_fuel fuel) as [Hv _].
  destruct (Hv _ _ _ H) as [_ Hf]. apply Hf. lia.
Qed.

(** ** The numbers of a parsed polygon set *)

Lemma read_number_finite (s : jsstring) (n : num) (rest : jsstring) :
  read_number s = Some (n, rest) -> is_finite n = true.
Proof.
  unfold read_number.
  repeat match goal with
         | |- context [let (_, _) := ?e in _] => destruct e
         | |- context [match ?e with _ => _ end] => destruct e
         end; try discriminate;
    intro H; injection H as <- _; reflexivity.
Qed.

(** Takes apart the [match]es of a parser step [H] until its result shows. *)
Ltac parser_cases H :=
  repeat match type of H with
         | context [match ?e with _ => _ end] =>
             let E := fresh "E" in destruct e eqn:E; try discriminate H
         end.

(** The JSON grammar has no literal for [NaN] or an infinity: every number
    of a parsed value is finite. *)
Lemma parse_all_finite (fuel : nat) :
  (forall s v rest,
      parse_value fuel s = Some (v, rest) -> all_finite v = true)
  /\ (forall s vs rest,
         parse_elements fuel s = Some (vs, rest) ->
         forallb all_finite vs = true)
  /\ (forall s ms rest,
         parse_members fuel s = Some (ms, rest) ->
         forallb (fun member => match member with (_, w) => all_finite w end)
                 ms
         = true).
Proof.
  induction fuel as [|fuel (IHv & IHe & IHm)].
  - repeat split; intros; discriminate.
  - split; [|split].
    + intros s v rest H.
      cbn [parse_value] in H.
      destruct (skip_ws s) as [|c r]; [discriminate|].
      destruct (c =? 91)%N.
      { parser_cases H; injection H as <- _; eauto. }
      destruct (c =? 123)%N.
      { parser_cases H; injection H as <- _; eauto. }
      destruct (c =? 34)%N.
      { parser_cases H; injection H as <- _; reflexivity. }
      destruct (strip_prefix (str "true") (c :: r));
        [injection H as <- _; reflexivity|].
      destruct (strip_prefix (str "false") (c :: r));
        [injection H as <- _; reflexivity|].
      destruct (strip_prefix (str "null") (c :: r));
        [injection H as <- _; reflexivity|].
      destruct (read_number (c :: r)) as [[n r']|] eqn:En; [|discriminate].
      injection H as <- _. simpl.
      exact (read_number_finite _ _ _ En).
    + intros s vs rest H. cbn [parse_elements] in H.
      destruct (parse_value fuel s) as [[v r]|] eqn:Ev; [|discriminate].
      apply IHv in Ev.
      parser_cases H; injection H as <- _; simpl; rewrite Ev; eauto.
    + intros s ms rest H. cbn [parse_members] in H.
      destruct (skip_ws s) as [|q r0]; [discriminate|].
      destruct (negb (q =? 34)%N); [discriminate|].
      destruct (read_string r0) as [[key r1]|]; [|discriminate].
      destruct (skip_ws r1) as [|colon r2]; [discriminate|].
      destruct (negb (colon =? 58)%N); [discriminate|].
      destruct (parse_value fuel r2) as [[v r3]|] eqn:Ev; [|discriminate].
      apply IHv in Ev.
      parser_cases H; injection H as <- _; simpl; rewrite Ev; eauto.
Qed.

Lemma JSON_parse_all_finite (text : jsstring) (v : JsValue) :
  JSON_parse text = inr v -> all_finite v = true.
Proof.
  unfold JSON_parse.
  destruct (parse_value _ text) as [[w rest]|] eqn:E; [|discriminate].
  destruct (skip_ws rest); [|discriminate].
  intro H. injection H as <-.
  eapply (proj1 (parse_all_finite _)). exact E.
Qed.

Lemma own_property_all_finite (key : jsstring)
  (members : list (jsstring * JsValue)) (v : JsValue) :
  forallb (fun member => match member with (_, w) => all_finite w end) members
  = true ->
  own_property key members = Some v -> all_finite v = true.
Proof.
  induction members as [|[k w] members IH]; simpl; [discriminate|].
  intros H. apply andb_true_iff in H. destruct H as [Hw Hms].
  destruct (own_property key members) as [later|].
  - intro E. injection E as <-. now apply IH.
  - destruct (str_eqb k key); [|discriminate].
    intro E. injection E as <-. exact Hw.
Qed.

Lemma checkPoint_finite (i j : nat) (point : JsValue) (p : Point) :
  all_finite point = true -> checkPoint i j point = inr p -> finite_point p.
Proof.
  intros Hv. unfold checkPoint, bind.
  destruct (hasOwnProperty point (str "x")) as [|hasX]; [discriminate|].
  destruct (if hasX then _ else _) as [|hasZ]; [discriminate|].
  destruct (negb hasX || negb hasZ); [discriminate|].
  destruct (numeric_fields point) as [q|] eqn:E; [|discriminate].
  intro H. injection H as <-.
  unfold numeric_fields in E.
  destruct point as [| | | | |members]; try discriminate.
  destruct (own_property (str "x") members) as [[| |a| | |]|] eqn:Ex;
    try discriminate.
  destruct (own_property (str "z") members) as [[| |b| | |]|] eqn:Ez;
    try discriminate.
  injection E as <-. simpl in Hv.
  apply (own_property_all_finite _ _ _ Hv) in Ex.
  apply (own_property_all_finite _ _ _ Hv) in Ez.
  now split.
Qed.

Lemma checkPoints_finite (i : nat) (points : list JsValue) :
  forallb all_finite points = true ->
  forall j ps, checkPoints i j points = inr ps -> Forall finite_point ps.
Proof.
  induction points as [|point points IH]; simpl; intros Hv j ps.
  - intro H. injection H as <-. constructor.
  - apply andb_true_iff in Hv. destruct Hv as [Hp Hps].
    unfold bind.
    destruct (checkPoint i j point) as [|p] eqn:Ep; [discriminate|].
    destruct (checkPoints i (S j) points) as [|ps'] eqn:Eps; [discriminate|].
    intro H. injection H as <-. constructor.
    + now apply (checkPoint_finite i j point).
    + now apply (IH Hps (S j)).
Qed.

Lemma checkPolygons_finite (parsed : list JsValue) :
  forallb all_finite parsed = true ->
  forall i ps,
    checkPolygons i parsed = inr ps -> Forall (Forall finite_point) ps.
Proof.
  induction parsed as [|polygon parsed IH]; simpl; intros Hv i ps.
  - intro H. injection H as <-. constructor.
  - apply andb_true_iff in Hv. destruct Hv as [Hp Hps].
    unfold bind.
    destruct (checkPolygon i polygon) as [|p] eqn:Ep; [discriminate|].
    destruct (checkPolygons (S i) parsed) as [|ps'] eqn:Eps; [discriminate|].
    intro H. injection H as <-. constructor.
    + unfold checkPolygon in Ep.
      destruct polygon as [| | | |points|]; try discriminate.
      now apply (checkPoints_finite i points Hp 0).
    + now apply (IH Hps (S i)).
Qed.

(** The points of a successfully parsed polygon set have finite
    coordinates. *)
Lemma parsePolygons_finite (text : jsstring) (parsed : PolygonSet) :
  parsePolygons text = inr parsed -> Forall (Forall finite_point) parsed.
Proof.
  unfold parsePolygons, bind.
  destruct (JSON_parse text) as [|v] eqn:Ev; [discriminate|].
  apply JSON_parse_all_finite in Ev.
  destruct (validateStructure v) as [|ps] eqn:Eps; [discriminate|].
  intro H. injection H as <-.
  unfold validateStructure in Eps.
  destruct v as [| | | |polygons|]; try discriminate.
  now apply (checkPolygons_finite polygons Ev 0).
Qed.

Lemma finite_point_no_NaN (p : Point) : finite_point p -> point_no_NaN p.
Proof.
  destruct p as [[| | |a] [| | |b]]; intros [H1 H2]; try discriminate.
  now split.
Qed.




(** ** What the component can hold *)

(** In every state the component reaches, the polygon points are finite
    and the custom point, when there is one, has no [NaN] coordinate. *)
Lemma step_numbers (st : State) (ev : Event) :
  Forall (Forall finite_point) (polygons st) ->
  (forall p, customPoint st = Some p -> point_no_NaN p) ->
  Forall (Forall finite_point) (polygons (step st ev))
  /\ (forall p, customPoint (step st ev) = Some p -> point_no_NaN p).
Proof.
  intros Hps Hcp.
  assert (Hinput : forall text s,
             Forall (Forall finite_point) (polygons s) ->
             (forall p, customPoint s = Some p -> point_no_NaN p) ->
             Forall (Forall finite_point) (polygons (handleInputChange text s))
             /\ (forall p, customPoint (handleInputChange text s) = Some p ->
                           point_no_NaN p)).
  { intros text s Hs Hc. unfold handleInputChange.
    destruct (str_eqb (trim text) []); [split; [constructor|exact Hc]|].
    destruct (parsePolygons text) as [m|parsed] eqn:E.
    - split; [constructor|exact Hc].
    - split; [exact (parsePolygons_finite text parsed E)|exact Hc]. }
  destruct ev; cbn [step]; try (split; assumption).
  - now apply Hinput.
  - unfold handleCoordinateChange.
    destruct (str_eqb (trim x0) [] || str_eqb (trim z0) []
              || isNaN (parseFloat x0) || isNaN (parseFloat z0)) eqn:E.
    + split; [exact Hps|discriminate].
    + split; [exact Hps|]. simpl. intros p Hp. injection Hp as <-.
      apply orb_false_iff in E. destruct E as [E Ez].
      apply orb_false_iff in E. destruct E as [_ Ex]. now split.
  - unfold loadSampleData. now apply Hinput.
  - unfold handlePointHover. destruct (isDragging st), svg; split; assumption.
  - unfold handleMouseDown. destruct (negb _); split; assumption.
  - unfold handleMouseMove.
    destruct (isDragging st), (dragStart st), svg; split; assumption.
Qed.

Lemma run_numbers (events : list Event) :
  Forall (Forall finite_point) (polygons (run events))
  /\ (forall p, customPoint (run events) = Some p -> point_no_NaN p).
Proof.
  unfold run.
  assert (H0 : Forall (Forall finite_point) (polygons initialState)
               /\ (forall p, customPoint initialState = Some p ->
                             point_no_NaN p))
    by (split; [constructor|discriminate]).
  revert H0. generalize initialState.
  induction events as [|ev events IH]; intros st Hst; simpl.
  - exact Hst.
  - apply IH. destruct Hst. now apply step_numbers.
Qed.

(** So the fit of any state the component reaches contains every polygon
    point and the custom point, as soon as the polygons have a point. *)
Lemma reachable_bounds_contain (events : list Event) (polygon : Polygon)
  (p0 : Point) :
  let st := run events in
  In polygon (polygons st) -> In p0 polygon ->
  forall p, In p (all_points (polygons st) (customPoint st)) ->
            contains (calculateBounds (polygons st) (customPoint st)) p.
Proof.
  intros st Hpolygon Hp0.
  destruct (run_numbers events) as [Hps Hcp]. fold st in Hps, Hcp.
  apply calculateBounds_contains_all.
  - unfold all_points. apply Forall_app. split.
    + apply Forall_concat. eapply Forall_impl; [|exact Hps].
      intros q Hq. eapply Forall_impl; [|exact Hq].
      exact finite_point_no_NaN.
    + destruct (customPoint st) as [q|]; constructor; auto.
  - apply Exists_exists. exists p0. split.
    + now apply in_all_points_polygon with polygon.
    + rewrite Forall_forall in Hps. specialize (Hps polygon Hpolygon).
      rewrite Forall_forall in Hps. now apply Hps.
Qed.

(* ================================================================== *)
(** * Further properties *)

(** ** Equality of numbers *)

Lemma num_eq_refl (a : num) : a =n= a.
Proof. destruct a; simpl; auto. reflexivity. Qed.

Lemma num_eq_sym (a b : num) : a =n= b -> b =n= a.
Proof. destruct a, b; simpl; auto. intro H. now symmetry. Qed.

Lemma num_eq_trans (a b c : num) : a =n= b -> b =n= c -> a =n= c.
Proof.
  destruct a, b, c; simpl; auto; try contradiction.
  intros H1 H2. now rewrite H1.
Qed.

Lemma is_finite_inv (a : num) : is_finite a = true -> exists q, a = Fin q.
Proof. destruct a; try discriminate. intros _. now eexists. Qed.

(** ** The bounds as a padded bounding box *)

Lemma fold_min_finite (vals : list num) :
  Forall (fun v => is_finite v = true) vals ->
  forall m0 : Q, exists m,
    fold_left Math_min vals (Fin m0) = Fin m
    /\ least m (Fin m0 :: vals).
Proof.
  induction 1 as [|v vals Hv Hvals IH]; intro m0; simpl.
  - exists m0. split; [reflexivity|]. split.
    + intros v [<-|[]]. apply num_le_Fin. lra.
    + exists (Fin m0). split; [now left|]. apply num_eq_refl.
  - destruct (is_finite_inv v Hv) as [q ->]. simpl.
    destruct (Qle_bool m0 q) eqn:E; qprop.
    + destruct (IH m0) as (m & -> & Hlow & w & Hw & Ew).
      exists m. split; [reflexivity|]. split.
      * intros u [<-|[<-|Hu]].
        -- apply Hlow. now left.
        -- eapply num_le_trans; [apply Hlow; now left|].
           now apply num_le_Fin.
        -- apply Hlow. now right.
      * exists w. split; [|exact Ew].
        destruct Hw as [<-|Hw]; [now left|now right; right].
    + destruct (IH q) as (m & -> & Hlow & w & Hw & Ew).
      exists m. split; [reflexivity|]. split.
      * intros u [<-|[<-|Hu]].
        -- eapply num_le_trans; [apply Hlow; now left|].
           apply num_le_Fin. lra.
        -- apply Hlow. now left.
        -- apply Hlow. now right.
      * exists w. split; [|exact Ew].
        destruct Hw as [<-|Hw]; [right; now left|now right; right].
Qed.

Lemma fold_max_finite (vals : list num) :
  Forall (fun v => is_finite v = true) vals ->
  forall m0 : Q, exists m,
    fold_left Math_max vals (Fin m0) = Fin m
    /\ greatest m (Fin m0 :: vals).
Proof.
  induction 1 as [|v vals Hv Hvals IH]; intro m0; simpl.
  - exists m0. split; [reflexivity|]. split.
    + intros v [<-|[]]. apply num_le_Fin. lra.
    + exists (Fin m0). split; [now left|]. apply num_eq_refl.
  - destruct (is_finite_inv v Hv) as [q ->]. simpl.
    destruct (Qle_bool m0 q) eqn:E; qprop.
    + destruct (IH q) as (m & -> & Hup & w & Hw & Ew).
      exists m. split; [reflexivity|]. split.
      * intros u [<-|[<-|Hu]].
        -- eapply num_le_trans; [|apply Hup; now left].
           now apply num_le_Fin.
        -- apply Hup. now left.
        -- apply Hup. now right.
      * exists w. split; [|exact Ew].
        destruct Hw as [<-|Hw]; [right; now left|now right; right].
    + destruct (IH m0) as (m & -> & Hup & w & Hw & Ew).
      exists m. split; [reflexivity|]. split.
      * intros u [<-|[<-|Hu]].
        -- apply Hup. now left.
        -- eapply num_le_trans; [|apply Hup; now left].
           apply num_le_Fin. lra.
        -- apply Hup. now right.
      * exists w. split; [|exact Ew].
        destruct Hw as [<-|Hw]; [now left|now right; right].
Qed.

(** The fold of [calculateBounds] over finite points, the first of which
    is [p0], is their tight box. *)
Lemma fold_bounding_box (p0 : Point) (l : list Point) :
  Forall finite_point (p0 :: l) ->
  exists xmin zmin xmax zmax,
    fold_left includePoint (p0 :: l) (Bounds.mk PosInf PosInf NegInf NegInf)
    = rect xmin zmin xmax zmax
    /\ bounding_box (p0 :: l) xmin zmin xmax zmax.
Proof.
  intro Hfin. inversion Hfin as [|? ? Hp0 Hl]; subst.
  destruct p0 as [u v]. destruct Hp0 as [Hu Hv]. simpl in Hu, Hv.
  destruct (is_finite_inv u Hu) as [u0 ->].
  destruct (is_finite_inv v Hv) as [v0 ->].
  simpl fold_left. rewrite includePoint_first.
  destruct (fold_includePoint_edges l (rect u0 v0 u0 v0))
    as (Ex1 & Ex2 & Ez1 & Ez2). simpl in Ex1, Ex2, Ez1, Ez2.
  assert (Hx : Forall (fun w => is_finite w = true) (map x l)).
  { apply Forall_map. eapply Forall_impl; [|exact Hl]. now intros q [? ?]. }
  assert (Hz : Forall (fun w => is_finite w = true) (map z l)).
  { apply Forall_map. eapply Forall_impl; [|exact Hl]. now intros q [? ?]. }
  destruct (fold_min_finite _ Hx u0) as (xmin & Fx1 & Lx).
  destruct (fold_max_finite _ Hx u0) as (xmax & Fx2 & Gx).
  destruct (fold_min_finite _ Hz v0) as (zmin & Fz1 & Lz).
  destruct (fold_max_finite _ Hz v0) as (zmax & Fz2 & Gz).
  exists xmin, zmin, xmax, zmax. split.
  - destruct (fold_left includePoint l (rect u0 v0 u0 v0)) as [a c d e].
    simpl in *. unfold rect. congruence.
  - unfold bounding_box. simpl. auto.
Qed.

Lemma num_le_eq_l (a b c : num) : a =n= b -> a <= c -> b <= c.
Proof.
  unfold num_le. destruct a, b, c; simpl; auto; try contradiction.
  intros H1 H2. qprop. lra.
Qed.

Lemma num_le_eq_r (a b c : num) : b =n= c -> a <= b -> a <= c.
Proof.
  unfold num_le. destruct a, b, c; simpl; auto; try contradiction.
  intros H1 H2. qprop. lra.
Qed.

Lemma bounds_eq_refl (b : Bounds.t) : bounds_eq b b.
Proof. unfold bounds_eq. auto using num_eq_refl. Qed.

Lemma bounds_eq_sym (b b' : Bounds.t) : bounds_eq b b' -> bounds_eq b' b.
Proof. unfold bounds_eq. intuition auto using num_eq_sym. Qed.

Lemma bounds_eq_trans (b1 b2 b3 : Bounds.t) :
  bounds_eq b1 b2 -> bounds_eq b2 b3 -> bounds_eq b1 b3.
Proof. unfold bounds_eq. intuition eauto using num_eq_trans. Qed.

Lemma least_le_greatest (lo hi : Q) (vals : list num) :
  least lo vals -> greatest hi vals -> (lo <= hi)%Q.
Proof.
  intros [_ (v & Hv & Ev)] [Hup _].
  apply num_le_Fin. eapply num_le_eq_l; [exact Ev|]. now apply Hup.
Qed.

Lemma bounding_box_ordered (l : list Point) (xmin zmin xmax zmax : Q) :
  bounding_box l xmin zmin xmax zmax -> (xmin <= xmax /\ zmin <= zmax)%Q.
Proof.
  intros (Lx & Lz & Gx & Gz). split; eapply least_le_greatest; eassumption.
Qed.

Lemma margin_compat (a c d e a' c' d' e' : Q) :
  (a == a')%Q -> (c == c')%Q -> (d == d')%Q -> (e == e')%Q ->
  (margin a c d e == margin a' c' d' e')%Q.
Proof.
  intros Ha Hc Hd He. unfold margin.
  assert (E1 : Qeq_bool a d = Qeq_bool a' d').
  { destruct (Qeq_bool a d) eqn:E, (Qeq_bool a' d') eqn:E';
      auto; qprop; exfalso; [apply E'|apply E]; lra. }
  assert (E2 : Qeq_bool c e = Qeq_bool c' e').
  { destruct (Qeq_bool c e) eqn:E, (Qeq_bool c' e') eqn:E';
      auto; qprop; exfalso; [apply E'|apply E]; lra. }
  rewrite E1, E2. destruct (Qeq_bool a' d' && Qeq_bool c' e').
  - reflexivity.
  - now rewrite Ha, Hc, Hd, He.
Qed.

Lemma margin_positive (a c d e : Q) :
  (a <= d)%Q -> (c <= e)%Q -> (0 < margin a c d e)%Q.
Proof.
  intros Hx Hy. unfold margin.
  destruct (Qeq_bool a d && Qeq_bool c e) eqn:E; [reflexivity|].
  assert (H : (a < d \/ c < e)%Q).
  { destruct (Qlt_le_dec a d) as [|Hda]; [now left|].
    destruct (Qlt_le_dec c e) as [|Hec]; [now right|].
    exfalso. assert (E1 : Qeq_bool a d = true) by (qprop; lra).
    assert (E2 : Qeq_bool c e = true) by (qprop; lra).
    rewrite E1, E2 in E. discriminate E. }
  destruct (Q.max_spec (d - a) (e - c)) as [[? Em]|[? Em]]; lra.
Qed.

(** The single-point expansion and the padding move every edge of an
    ordered finite rectangle outwards by its [margin]. *)
Lemma expand_and_pad_margin (a c d e : Q) :
  (a <= d)%Q -> (c <= e)%Q ->
  let m := margin a c d e in
  bounds_eq (expand_and_pad (rect a c d e))
            (rect (a - m) (c - m) (d + m) (e + m)).
Proof.
  intros Hx Hy m. subst m. unfold margin, expand_and_pad, rect, bounds_eq.
  simpl. destruct (Qeq_bool a d && Qeq_bool c e) eqn:E; simpl.
  - apply andb_true_iff in E. destruct E as [E1 E2]. qprop.
    destruct (Qle_bool (d + 5 - (a - 5)) (e + 5 - (c - 5)));
      simpl; repeat split; lra.
  - destruct (Q.max_spec (d - a) (e - c)) as [[? Em]|[? Em]];
      destruct (Qle_bool (d - a) (e - c)) eqn:E1; qprop; simpl;
      repeat split; lra.
Qed.

(** What [calculateBounds] computes for finite points: their tight box,
    every edge moved outwards by the margin. *)
Lemma calculateBounds_padded_box (polygons : PolygonSet)
  (cp : option Point) :
  Forall finite_point (all_points polygons cp) ->
  all_points polygons cp <> [] ->
  exists xmin zmin xmax zmax,
    bounding_box (all_points polygons cp) xmin zmin xmax zmax
    /\ bounds_eq (calculateBounds polygons cp)
         (let m := margin xmin zmin xmax zmax in
          rect (xmin - m) (zmin - m) (xmax + m) (zmax + m)).
Proof.
  intros Hfin Hne. rewrite calculateBounds_fold by assumption.
  destruct (all_points polygons cp) as [|p0 l]; [now contradiction Hne|].
  destruct (fold_bounding_box p0 l Hfin)
    as (xmin & zmin & xmax & zmax & -> & Hbox).
  exists xmin, zmin, xmax, zmax. split; [exact Hbox|].
  destruct (bounding_box_ordered _ _ _ _ _ Hbox).
  now apply expand_and_pad_margin.
Qed.



Lemma num_eq_Fin_inv (a : num) (q : Q) :
  a =n= Fin q -> exists q', a = Fin q' /\ (q' == q)%Q.
Proof. destruct a; simpl; try contradiction. intro H. now eexists. Qed.

(** The view box of finite points, in rational terms. *)
Lemma fitViewBox_finite (polygons : PolygonSet) (cp : option Point) :
  Forall finite_point (all_points polygons cp) ->
  all_points polygons cp <> [] ->
  exists xmin zmin xmax zmax a c W H,
    bounding_box (all_points polygons cp) xmin zmin xmax zmax
    /\ fitViewBox polygons cp = ViewBox.mk (Fin a) (Fin c) (Fin W) (Fin H)
    /\ (a == xmin - margin xmin zmin xmax zmax)%Q
    /\ (c == zmin - margin xmin zmin xmax zmax)%Q
    /\ (W == xmax - xmin + 2 * margin xmin zmin xmax zmax)%Q
    /\ (H == zmax - zmin + 2 * margin xmin zmin xmax zmax)%Q.
Proof.
  intros Hfin Hne.
  destruct (calculateBounds_padded_box polygons cp Hfin Hne)
    as (xmin & zmin & xmax & zmax & Hbox & E1 & E2 & E3 & E4).
  simpl in E1, E2, E3, E4.
  apply num_eq_Fin_inv in E1, E2, E3, E4.
  destruct E1 as (a & Ea & Ha), E2 as (c & Ec & Hc),
           E3 as (d & Ed & Hd), E4 as (e & Ee & He).
  exists xmin, zmin, xmax, zmax, a, c, (d - a)%Q, (e - c)%Q.
  split; [exact Hbox|]. unfold fitViewBox.
  rewrite Ea, Ec, Ed, Ee. simpl.
  split; [reflexivity|]. repeat split; lra.
Qed.



Lemma margin_at_least_twelfth (a c d e W H : Q) :
  (a <= d)%Q -> (c <= e)%Q ->
  (W == d - a + 2 * margin a c d e)%Q ->
  (H == e - c + 2 * margin a c d e)%Q ->
  (Qmax W H / 12 <= margin a c d e)%Q.
Proof.
  intros Hx Hz HW HH. revert HW HH.
  unfold margin, Qdiv. change (/ 12)%Q with (1 # 12)%Q.
  destruct (Qeq_bool a d && Qeq_bool c e) eqn:E.
  - apply andb_true_iff in E. destruct E as [E1 E2]. qprop.
    intros HW HH.
    destruct (Q.max_spec W H) as [[? Em]|[? Em]]; rewrite Em; lra.
  - intros HW HH.
    destruct (Q.max_spec (d - a) (e - c)) as [[? Em]|[? Em]];
      destruct (Q.max_spec W H) as [[? Em']|[? Em']];
      rewrite Em'; rewrite Em in HW, HH; lra.
Qed.



(** X4.  [calculateBounds] sees only the sequence of points: grouping them
    differently into polygons, or giving the last one as the custom point
    instead of a one-point polygon, returns the very same rectangle. *)
Theorem calculateBounds_depends_on_points
  (polygons polygons' : PolygonSet) (customPoint customPoint' : option Point) :
  all_points polygons customPoint = all_points polygons' customPoint' ->
  all_points polygons customPoint <> [] ->
  calculateBounds polygons customPoint
  = calculateBounds polygons' customPoint'.
Proof.
  intros E Hne.
  rewrite (calculateBounds_fold polygons customPoint Hne).
  rewrite (calculateBounds_fold polygons' customPoint')
    by (rewrite <- E; exact Hne).
  now rewrite E.
Qed.

Lemma calculateBounds_depends_on_points_witness :
  calculateBounds [[mkPoint (Fin 1) (Fin 2)]; [mkPoint (Fin 3) (Fin 5)]]
                  (Some (mkPoint PosInf (Fin 0)))
  = calculateBounds
      [[mkPoint (Fin 1) (Fin 2); mkPoint (Fin 3) (Fin 5)];
       [mkPoint PosInf (Fin 0)]]
      None.
Proof.
  apply calculateBounds_depends_on_points.
  - reflexivity.
  - discriminate.
Defined.

Lemma least_unique (lo lo' : Q) (vals vals' : list num) :
  (forall v', In v' vals' -> exists v, In v vals /\ v =n= v') ->
  least lo vals -> least lo' vals' -> (lo <= lo')%Q.
Proof.
  intros Hsub [Hlow _] [_ (w' & Hw' & Ew')].
  destruct (Hsub w' Hw') as (w & Hw & Ew).
  apply num_le_Fin. eapply num_le_eq_r; [|apply Hlow; exact Hw].
  eapply num_eq_trans; eassumption.
Qed.

Lemma greatest_unique (hi hi' : Q) (vals vals' : list num) :
  (forall v', In v' vals' -> exists v, In v vals /\ v =n= v') ->
  greatest hi vals -> greatest hi' vals' -> (hi' <= hi)%Q.
Proof.
  intros Hsub [Hup _] [_ (w' & Hw' & Ew')].
  destruct (Hsub w' Hw') as (w & Hw & Ew).
  apply num_le_Fin. eapply num_le_eq_l; [|apply Hup; exact Hw].
  eapply num_eq_trans; eassumption.
Qed.

Lemma same_points_coordinates (l l' : list Point) :
  same_points l l' ->
  (forall v', In v' (map x l') -> exists v, In v (map x l) /\ v =n= v')
  /\ (forall v', In v' (map z l') -> exists v, In v (map z l) /\ v =n= v')
  /\ (forall v, In v (map x l) -> exists v', In v' (map x l') /\ v' =n= v)
  /\ (forall v, In v (map z l) -> exists v', In v' (map z l') /\ v' =n= v).
Proof.
  intros [H1 H2]. repeat split; intros v Hv; apply in_map_iff in Hv;
    destruct Hv as (p & <- & Hp).
  - destruct (H2 p Hp) as (q & Hq & [Ex _]).
    exists (x q). split; [now apply in_map|exact Ex].
  - destruct (H2 p Hp) as (q & Hq & [_ Ez]).
    exists (z q). split; [now apply in_map|exact Ez].
  - destruct (H1 p Hp) as (q & Hq & [Ex _]).
    exists (x q). split; [now apply in_map|now apply num_eq_sym].
  - destruct (H1 p Hp) as (q & Hq & [_ Ez]).
    exists (z q). split; [now apply in_map|now apply num_eq_sym].
Qed.

(** Two tight boxes of the same points are the same box. *)
Lemma bounding_box_unique (l l' : list Point)
  (xmin zmin xmax zmax xmin' zmin' xmax' zmax' : Q) :
  same_points l l' ->
  bounding_box l xmin zmin xmax zmax ->
  bounding_box l' xmin' zmin' xmax' zmax' ->
  (xmin == xmin' /\ zmin == zmin' /\ xmax == xmax' /\ zmax == zmax')%Q.
Proof.
  intros Hsame (Lx & Lz & Gx & Gz) (Lx' & Lz' & Gx' & Gz').
  destruct (same_points_coordinates l l' Hsame) as (Sx & Sz & Sx' & Sz').
  pose proof (least_unique _ _ _ _ Sx Lx Lx').
  pose proof (least_unique _ _ _ _ Sx' Lx' Lx).
  pose proof (least_unique _ _ _ _ Sz Lz Lz').
  pose proof (least_unique _ _ _ _ Sz' Lz' Lz).
  pose proof (greatest_unique _ _ _ _ Sx Gx Gx').
  pose proof (greatest_unique _ _ _ _ Sx' Gx' Gx).
  pose proof (greatest_unique _ _ _ _ Sz Gz Gz').
  pose proof (greatest_unique _ _ _ _ Sz' Gz' Gz).
  repeat split; lra.
Qed.

Lemma padded_rect_compat (a c d e a' c' d' e' : Q) :
  (a == a' /\ c == c' /\ d == d' /\ e == e')%Q ->
  bounds_eq
    (let m := margin a c d e in rect (a - m) (c - m) (d + m) (e + m))
    (let m := margin a' c' d' e' in
     rect (a' - m) (c' - m) (d' + m) (e' + m)).
Proof.
  intros (Ha & Hc & Hd & He).
  pose proof (margin_compat _ _ _ _ _ _ _ _ Ha Hc Hd He) as Hm.
  unfold bounds_eq, rect; simpl. repeat split; lra.
Qed.

(** X5.  For finite points the rectangle depends on the set of points
    alone: two inputs holding the same points, in any order, with any
    repetitions and any grouping, get the same rectangle. *)
Theorem calculateBounds_same_points
  (polygons polygons' : PolygonSet) (customPoint customPoint' : option Point) :
  Forall finite_point (all_points polygons customPoint) ->
  Forall finite_point (all_points polygons' customPoint') ->
  all_points polygons customPoint <> [] ->
  same_points (all_points polygons customPoint)
              (all_points polygons' customPoint') ->
  bounds_eq (calculateBounds polygons customPoint)
            (calculateBounds polygons' customPoint').
Proof.
  intros Hfin Hfin' Hne Hsame.
  assert (Hne' : all_points polygons' customPoint' <> []).
  { destruct (all_points polygons customPoint) as [|p l]; [now contradiction Hne|].
    destruct Hsame as [H1 _]. destruct (H1 p (or_introl eq_refl)) as (q & Hq & _).
    intro E. rewrite E in Hq. destruct Hq. }
  destruct (calculateBounds_padded_box _ _ Hfin Hne)
    as (xmin & zmin & xmax & zmax & Hbox & Hb).
  destruct (calculateBounds_padded_box _ _ Hfin' Hne')
    as (xmin' & zmin' & xmax' & zmax' & Hbox' & Hb').
  eapply bounds_eq_trans; [exact Hb|].
  eapply bounds_eq_trans; [|apply bounds_eq_sym; exact Hb'].
  apply padded_rect_compat.
  eapply bounding_box_unique; eassumption.
Qed.

Lemma calculateBounds_same_points_witness :
  bounds_eq
    (calculateBounds [[mkPoint (Fin 1) (Fin 2); mkPoint (Fin 3) (Fin 5)]]
                     (Some (mkPoint (Fin (-1)) (Fin 0))))
    (calculateBounds
       [[mkPoint (Fin 3) (Fin 5)];
        [mkPoint (Fin (-2 # 2)) (Fin 0); mkPoint (Fin 1) (Fin 2);
         mkPoint (Fin 3) (Fin 5)]]
       None).
Proof.
  apply calculateBounds_same_points.
  - repeat constructor.
  - repeat constructor.
  - discriminate.
  - split; intros p Hp; simpl in Hp;
      repeat (destruct Hp as [<-|Hp]; [|]); try contradiction.
    + exists (mkPoint (Fin 1) (Fin 2)). split; [simpl; tauto|].
      split; simpl; reflexivity.
    + exists (mkPoint (Fin 3) (Fin 5)). split; [simpl; tauto|].
      split; simpl; reflexivity.
    + exists (mkPoint (Fin (-2 # 2)) (Fin 0)). split; [simpl; tauto|].
      split; simpl; reflexivity.
    + exists (mkPoint (Fin 3) (Fin 5)). split; [simpl; tauto|].
      split; simpl; reflexivity.
    + exists (mkPoint (Fin (-1)) (Fin 0)). split; [simpl; tauto|].
      split; simpl; reflexivity.
    + exists (mkPoint (Fin 1) (Fin 2)). split; [simpl; tauto|].
      split; simpl; reflexivity.
    + exists (mkPoint (Fin 3) (Fin 5)). split; [simpl; tauto|].
      split; simpl; reflexivity.
Defined.

Lemma all_points_map (f : Point -> Point) (polygons : PolygonSet)
  (cp : option Point) :
  all_points (map (map f) polygons) (option_map f cp)
  = map f (all_points polygons cp).
Proof.
  unfold all_points. rewrite map_app, concat_map.
  destruct cp; reflexivity.
Qed.

Lemma same_points_refl (l : list Point) : same_points l l.
Proof.
  split; intros p Hp; exists p; (split; [exact Hp|]);
    split; apply num_eq_refl.
Qed.

Lemma least_translate (lo d : Q) (f : Point -> num) (l : list Point) :
  Forall (fun p => is_finite (f p) = true) l ->
  least lo (map f l) ->
  least (lo + d) (map (fun p => f p + Fin d) l).
Proof.
  intros Hfin [Hlow (v & Hv & Ev)]. rewrite Forall_forall in Hfin. split.
  - intros w Hw. apply in_map_iff in Hw. destruct Hw as (p & <- & Hp).
    specialize (Hlow (f p) (in_map f _ _ Hp)).
    destruct (is_finite_inv _ (Hfin p Hp)) as [u Eu]. rewrite Eu in *.
    simpl. rewrite num_le_Fin in *. lra.
  - apply in_map_iff in Hv. destruct Hv as (p & <- & Hp).
    exists (f p + Fin d). split; [now apply (in_map (fun p => f p + Fin d))|].
    destruct (is_finite_inv _ (Hfin p Hp)) as [u Eu]. rewrite Eu in *.
    simpl in *. lra.
Qed.

Lemma greatest_translate (hi d : Q) (f : Point -> num) (l : list Point) :
  Forall (fun p => is_finite (f p) = true) l ->
  greatest hi (map f l) ->
  greatest (hi + d) (map (fun p => f p + Fin d) l).
Proof.
  intros Hfin [Hup (v & Hv & Ev)]. rewrite Forall_forall in Hfin. split.
  - intros w Hw. apply in_map_iff in Hw. destruct Hw as (p & <- & Hp).
    specialize (Hup (f p) (in_map f _ _ Hp)).
    destruct (is_finite_inv _ (Hfin p Hp)) as [u Eu]. rewrite Eu in *.
    simpl. rewrite num_le_Fin in *. lra.
  - apply in_map_iff in Hv. destruct Hv as (p & <- & Hp).
    exists (f p + Fin d). split; [now apply (in_map (fun p => f p + Fin d))|].
    destruct (is_finite_inv _ (Hfin p Hp)) as [u Eu]. rewrite Eu in *.
    simpl in *. lra.
Qed.

Lemma bounding_box_translate (dx dz : Q) (l : list Point)
  (xmin zmin xmax zmax : Q) :
  Forall finite_point l ->
  bounding_box l xmin zmin xmax zmax ->
  bounding_box (map (translate dx dz) l)
               (xmin + dx) (zmin + dz) (xmax + dx) (zmax + dz).
Proof.
  intros Hfin (Lx & Lz & Gx & Gz).
  assert (Hx : Forall (fun p => is_finite (x p) = true) l)
    by (eapply Forall_impl; [|exact Hfin]; now intros p [? ?]).
  assert (Hz : Forall (fun p => is_finite (z p) = true) l)
    by (eapply Forall_impl; [|exact Hfin]; now intros p [? ?]).
  unfold bounding_box. rewrite !map_map. simpl.
  repeat split.
  - apply (least_translate xmin dx x l Hx Lx).
  - apply (least_translate xmin dx x l Hx Lx).
  - apply (least_translate zmin dz z l Hz Lz).
  - apply (least_translate zmin dz z l Hz Lz).
  - apply (greatest_translate xmax dx x l Hx Gx).
  - apply (greatest_translate xmax dx x l Hx Gx).
  - apply (greatest_translate zmax dz z l Hz Gz).
  - apply (greatest_translate zmax dz z l Hz Gz).
Qed.

Lemma translate_finite (dx dz : Q) (p : Point) :
  finite_point p -> finite_point (translate dx dz p).
Proof.
  destruct p as [[| | |u] [| | |v]]; intros [H1 H2]; try discriminate.
  now split.
Qed.



(** ** The effective view *)

Lemma Qdiv_antitone (W q q' : Q) :
  (0 <= W)%Q -> (0 < q)%Q -> (q <= q')%Q -> (W / q' <= W / q)%Q.
Proof.
  intros HW Hq Hqq. apply Qle_shift_div_l; [lra|].
  assert (Ht : (0 <= W / q')%Q) by (apply Qle_shift_div_l; lra).
  assert (E : (q' * (W / q') == W)%Q) by (apply Qmult_div_r; lra).
  nra.
Qed.

Lemma Qdiv_one (W : Q) : (W / 1 == W)%Q.
Proof. field. Qed.

(** A point of the fitted view box stays in the effective view while the
    pan offset is zero and the zoom is at most 1. *)
Lemma fit_in_zoomed_out_view (st : State) (q : Q) (p : Point) :
  viewBox_fits st ->
  panOffset st = XY.mk (Fin 0) (Fin 0) ->
  zoom st = Fin q -> (0 < q <= 1)%Q ->
  Forall finite_point (all_points (polygons st) (customPoint st)) ->
  In p (all_points (polygons st) (customPoint st)) ->
  in_view (currentViewBox st) p.
Proof.
  intros Hfit Hpan Hzoom Hq Hfin Hp.
  assert (Hne : all_points (polygons st) (customPoint st) <> [])
    by (intro E; rewrite E in Hp; destruct Hp).
  destruct (fitViewBox_finite _ _ Hfin Hne)
    as (xmin & zmin & xmax & zmax & a & c & W & H
        & Hbox & E & Ha & Hc & HW & HH).
  destruct (bounding_box_ordered _ _ _ _ _ Hbox) as [Hx Hz].
  pose proof (margin_positive xmin zmin xmax zmax Hx Hz) as Hm.
  unfold in_view, currentViewBox. rewrite Hfit, E, Hpan, Hzoom.
  cbn [ViewBox.minX ViewBox.minY ViewBox.width ViewBox.height XY.x XY.y].
  rewrite !num_div_Fin by lra. simpl.
  destruct Hbox as ([Lx _] & [Lz _] & [Gx _] & [Gz _]).
  specialize (Lx (x p) (in_map x _ _ Hp)).
  specialize (Gx (x p) (in_map x _ _ Hp)).
  specialize (Lz (z p) (in_map z _ _ Hp)).
  specialize (Gz (z p) (in_map z _ _ Hp)).
  rewrite Forall_forall in Hfin. destruct (Hfin p Hp) as [Fx Fz].
  destruct (is_finite_inv _ Fx) as [u Eu].
  destruct (is_finite_inv _ Fz) as [v Ev].
  rewrite Eu in *. rewrite Ev in *.
  rewrite !num_le_Fin in *.
  assert (HWq : (W <= W / q)%Q).
  { rewrite <- (Qdiv_one W) at 1. apply Qdiv_antitone; lra. }
  assert (HHq : (H <= H / q)%Q).
  { rewrite <- (Qdiv_one H) at 1. apply Qdiv_antitone; lra. }
  lra.
Qed.





(** ** Zoom steps *)

Lemma zoomInStep_Fin (q : Q) :
  zoomInStep (Fin q) =n= Fin (Qmin (q * 1.5) 10).
Proof.
  unfold zoomInStep; simpl.
  destruct (Qle_bool (q * 1.5) 10) eqn:E; qprop; simpl.
  - symmetry. apply Q.min_l. exact E.
  - symmetry. apply Q.min_r. lra.
Qed.

Lemma zoomOutStep_Fin (q : Q) :
  zoomOutStep (Fin q) =n= Fin (Qmax (q / 1.5) 0.1).
Proof.
  unfold zoomOutStep; simpl.
  destruct (Qle_bool (q / 1.5) 0.1) eqn:E; qprop; simpl.
  - symmetry. apply Q.max_r. exact E.
  - symmetry. apply Q.max_l. lra.
Qed.

Lemma zoomInStep_compat (a : num) (q : Q) :
  a =n= Fin q -> zoomInStep a =n= zoomInStep (Fin q).
Proof.
  intro H. apply num_eq_Fin_inv in H. destruct H as (q' & -> & E).
  eapply num_eq_trans; [apply zoomInStep_Fin|].
  eapply num_eq_trans; [|apply num_eq_sym, zoomInStep_Fin].
  simpl. now rewrite E.
Qed.

Lemma zoomOutStep_compat (a : num) (q : Q) :
  a =n= Fin q -> zoomOutStep a =n= zoomOutStep (Fin q).
Proof.
  intro H. apply num_eq_Fin_inv in H. destruct H as (q' & -> & E).
  eapply num_eq_trans; [apply zoomOutStep_Fin|].
  eapply num_eq_trans; [|apply num_eq_sym, zoomOutStep_Fin].
  simpl. now rewrite E.
Qed.

Lemma Qdiv_15 (q : Q) : (q / 1.5 == q * (2 # 3))%Q.
Proof. field. Qed.



Lemma pow15_succ (n : nat) :
  ((3 # 2) ^ Z.of_nat (S n) == (3 # 2) * (3 # 2) ^ Z.of_nat n)%Q.
Proof.
  rewrite Nat2Z.inj_succ. unfold Z.succ.
  rewrite Qpower_plus by (intro H; discriminate H).
  rewrite Qmult_comm. reflexivity.
Qed.

Lemma pow15_positive (n : nat) : (0 < (3 # 2) ^ Z.of_nat n)%Q.
Proof. apply Qpower_0_lt. reflexivity. Qed.

Lemma zoom_iter_in (n : nat) (st : State) :
  zoom (Nat.iter n handleZoomIn st) = Nat.iter n zoomInStep (zoom st).
Proof.
  induction n as [|n IH]; simpl; [reflexivity|]. now rewrite IH.
Qed.

Lemma zoom_iter_out (n : nat) (st : State) :
  zoom (Nat.iter n handleZoomOut st) = Nat.iter n zoomOutStep (zoom st).
Proof.
  induction n as [|n IH]; simpl; [reflexivity|]. now rewrite IH.
Qed.

Lemma iter_zoomInStep (q : Q) (n : nat) :
  (q <= 10)%Q ->
  Nat.iter n zoomInStep (Fin q)
  =n= Fin (Qmin (q * (3 # 2) ^ Z.of_nat n) 10).
Proof.
  intro Hq. induction n as [|n IH].
  - simpl. rewrite Q.min_l by lra. ring.
  - change (Nat.iter (S n) zoomInStep (Fin q))
      with (zoomInStep (Nat.iter n zoomInStep (Fin q))).
    eapply num_eq_trans; [apply zoomInStep_compat; exact IH|].
    eapply num_eq_trans; [apply zoomInStep_Fin|]. unfold num_eq.
    pose proof (pow15_succ n) as Ep.
    set (p := ((3 # 2) ^ Z.of_nat n)%Q) in *.
    set (p' := ((3 # 2) ^ Z.of_nat (S n))%Q) in *.
    assert (Et : (q * p' == q * p * 1.5)%Q) by (rewrite Ep; ring).
    rewrite Et. generalize (q * p)%Q. intro t.
    destruct (Q.min_spec t 10) as [[? E1]|[? E1]];
      destruct (Q.min_spec (Qmin t 10 * 1.5) 10) as [[? E2]|[? E2]];
      destruct (Q.min_spec (t * 1.5) 10) as [[? E3]|[? E3]]; lra.
Qed.

Lemma iter_zoomOutStep (q : Q) (n : nat) :
  (0.1 <= q)%Q ->
  Nat.iter n zoomOutStep (Fin q)
  =n= Fin (Qmax (q / (3 # 2) ^ Z.of_nat n) 0.1).
Proof.
  intro Hq. induction n as [|n IH].
  - simpl. rewrite Q.max_l by (rewrite Qdiv_one; lra). field.
  - change (Nat.iter (S n) zoomOutStep (Fin q))
      with (zoomOutStep (Nat.iter n zoomOutStep (Fin q))).
    eapply num_eq_trans; [apply zoomOutStep_compat; exact IH|].
    eapply num_eq_trans; [apply zoomOutStep_Fin|]. unfold num_eq.
    pose proof (pow15_succ n) as Ep.
    pose proof (pow15_positive n) as Hp.
    set (p := ((3 # 2) ^ Z.of_nat n)%Q) in *.
    set (p' := ((3 # 2) ^ Z.of_nat (S n))%Q) in *.
    assert (Et : (q / p' == q / p * (2 # 3))%Q).
    { rewrite Ep. field. lra. }
    rewrite Et, Qdiv_15. generalize (q / p)%Q. intro t.
    destruct (Q.max_spec t 0.1) as [[? E1]|[? E1]];
      destruct (Q.max_spec (Qmax t 0.1 * (2 # 3)) 0.1) as [[? E2]|[? E2]];
      destruct (Q.max_spec (t * (2 # 3)) 0.1) as [[? E3]|[? E3]]; lra.
Qed.



Lemma zoomInStep_cases (q : Q) :
  (0.1 <= q <= 10)%Q ->
  exists q', zoomInStep (Fin q) = Fin q' /\ (q <= q' <= 10)%Q.
Proof.
  intro Hq. unfold zoomInStep; simpl.
  destruct (Qle_bool (q * 1.5) 10) eqn:E; qprop;
    eexists; (split; [reflexivity|]); lra.
Qed.

Lemma zoomOutStep_cases (q : Q) :
  (0.1 <= q <= 10)%Q ->
  exists q', zoomOutStep (Fin q) = Fin q' /\ (0.1 <= q' <= q)%Q.
Proof.
  intro Hq. unfold zoomOutStep; simpl. pose proof (Qdiv_15 q) as Ed.
  destruct (Qle_bool (q / 1.5) 0.1) eqn:E; qprop;
    eexists; (split; [reflexivity|]); lra.
Qed.

Lemma in_view_wider (a c w h w' h' : Q) (p : Point) :
  (w <= w')%Q -> (h <= h')%Q ->
  in_view (ViewBox.mk (Fin a) (Fin c) (Fin w) (Fin h)) p ->
  in_view (ViewBox.mk (Fin a) (Fin c) (Fin w') (Fin h')) p.
Proof.
  intros Hw Hh. unfold in_view, num_le.
  destruct p as [[| | |u] [| | |v]]; simpl; intros (H1 & H2 & H3 & H4);
    try discriminate.
  qprop. repeat split; qprop; lra.
Qed.

(** X11.  Zooming keeps the top-left corner of the effective view and
    only changes its size: with a finite view box of non-negative size,
    whatever is inside the effective view after Zoom In was inside it
    before, and whatever is inside it before Zoom Out is still inside
    after. *)
Theorem zoom_is_anchored_at_the_corner
  (st : State) (a c W H px py q : Q) :
  viewBox st = ViewBox.mk (Fin a) (Fin c) (Fin W) (Fin H) ->
  (0 <= W)%Q -> (0 <= H)%Q ->
  panOffset st = XY.mk (Fin px) (Fin py) ->
  zoom st = Fin q -> (0.1 <= q <= 10)%Q ->
  ViewBox.minX (currentViewBox (handleZoomIn st))
  = ViewBox.minX (currentViewBox st)
  /\ ViewBox.minY (currentViewBox (handleZoomIn st))
     = ViewBox.minY (currentViewBox st)
  /\ ViewBox.minX (currentViewBox (handleZoomOut st))
     = ViewBox.minX (currentViewBox st)
  /\ ViewBox.minY (currentViewBox (handleZoomOut st))
     = ViewBox.minY (currentViewBox st)
  /\ (forall p, in_view (currentViewBox (handleZoomIn st)) p ->
                in_view (currentViewBox st) p)
  /\ (forall p, in_view (currentViewBox st) p ->
                in_view (currentViewBox (handleZoomOut st)) p).
Proof.
  intros Hvb HW HH Hpan Hzoom Hq.
  split; [reflexivity|]. split; [reflexivity|].
  split; [reflexivity|]. split; [reflexivity|].
  destruct (zoomInStep_cases q Hq) as (qi & Ei & Hqi).
  destruct (zoomOutStep_cases q Hq) as (qo & Eo & Hqo).
  unfold currentViewBox, handleZoomIn, handleZoomOut, setZoom.
  cbn [viewBox panOffset zoom]. rewrite Hvb, Hpan, Hzoom, Ei, Eo.
  cbn [ViewBox.minX ViewBox.minY ViewBox.width ViewBox.height XY.x XY.y].
  rewrite !num_div_Fin by lra. cbn [num_add].
  split; intro p; apply in_view_wider; apply Qdiv_antitone; lra.
Qed.

Lemma zoom_is_anchored_at_the_corner_witness :
  in_view (currentViewBox initialState) (mkPoint (Fin 50) (Fin 60)).
Proof.
  assert (Hq : (0.1 <= 1 <= 10)%Q) by (split; intro H; discriminate H).
  assert (H100 : (0 <= 100)%Q) by (intro H; discriminate H).
  apply (zoom_is_anchored_at_the_corner initialState 0 0 100 100 0 0 1
           eq_refl H100 H100 eq_refl eq_refl Hq).
  vm_compute. tauto.
Defined.

(** ** Reset and gestures *)

Lemma view_gesture_keeps_data (st : State) (ev : Event) :
  is_view_gesture ev = true ->
  polygons (step st ev) = polygons st
  /\ customPoint (step st ev) = customPoint st
  /\ inputText (step st ev) = inputText st
  /\ error (step st ev) = error st
  /\ xCoordinate (step st ev) = xCoordinate st
  /\ zCoordinate (step st ev) = zCoordinate st
  /\ viewBox (step st ev) = viewBox st.
Proof.
  destruct ev; try discriminate; intros _; cbn [step];
    try (repeat split; reflexivity).
  - unfold handlePointHover. destruct (isDragging st), svg;
      repeat split; reflexivity.
  - unfold handleMouseDown. destruct (negb _); repeat split; reflexivity.
  - unfold handleMouseMove.
    destruct (isDragging st), (dragStart st), svg; repeat split; reflexivity.
Qed.

Lemma view_gestures_keep_data (events : list Event) (st : State) :
  Forall (fun ev => is_view_gesture ev = true) events ->
  let st' := fold_left step events st in
  polygons st' = polygons st
  /\ customPoint st' = customPoint st
  /\ inputText st' = inputText st
  /\ error st' = error st
  /\ xCoordinate st' = xCoordinate st
  /\ zCoordinate st' = zCoordinate st
  /\ viewBox st' = viewBox st.
Proof.
  intro H. revert st. induction H as [|ev events Hev Hevs IH]; intro st.
  - simpl. repeat split; reflexivity.
  - simpl. specialize (IH (step st ev)). simpl in IH.
    destruct IH as (I1 & I2 & I3 & I4 & I5 & I6 & I7).
    destruct (view_gesture_keeps_data st ev Hev)
      as (K1 & K2 & K3 & K4 & K5 & K6 & K7).
    repeat split; congruence.
Qed.

(** X12.  Reset View undoes any sequence of zoom, hover and drag
    gestures: they leave the text, the error, the coordinate fields, the
    polygons, the custom point and the stored view box untouched, and the
    effective view after [handleReset] is the one [handleReset] would have
    given before them. *)
Theorem reset_undoes_view_gestures (events : list Event) (st : State) :
  Forall (fun ev => is_view_gesture ev = true) events ->
  let st' := fold_left step events st in
  polygons st' = polygons st
  /\ customPoint st' = customPoint st
  /\ inputText st' = inputText st
  /\ error st' = error st
  /\ viewBox st' = viewBox st
  /\ zoom (handleReset st') = zoom (handleReset st)
  /\ panOffset (handleReset st') = panOffset (handleReset st)
  /\ viewBox (handleReset st') = viewBox (handleReset st)
  /\ currentViewBox (handleReset st') = currentViewBox (handleReset st).
Proof.
  intros H st'.
  destruct (view_gestures_keep_data events st H)
    as (K1 & K2 & K3 & K4 & K5 & K6 & K7). fold st' in K1, K2, K3, K4, K7.
  assert (E : viewBox (handleReset st') = viewBox (handleReset st)).
  { unfold handleReset, updateViewBox. cbn [viewBox setPanOffset setViewBox].
    now rewrite K1, K2. }
  repeat split; try assumption; try reflexivity.
  unfold currentViewBox. rewrite E. reflexivity.
Qed.

Lemma reset_undoes_view_gestures_witness :
  let st := loadSampleData initialState in
  let gestures :=
    [ZoomIn; MouseDown (pointer_at 10 20);
     MouseMove (Some (mkDOMRect (Fin 0) (Fin 0) (Fin 400) (Fin 400)))
               (pointer_at 50 60);
     MouseUp; ZoomOut; ZoomOut] in
  currentViewBox (handleReset (fold_left step gestures st))
  = currentViewBox (handleReset st).
Proof.
  intros st gestures.
  apply (reset_undoes_view_gestures gestures st).
  repeat constructor.
Defined.

(** ** Dragging along a path *)

Lemma last_cons {A : Type} (a d : A) (l : list A) :
  last (a :: l) d = last l a.
Proof.
  revert a d. induction l as [|b l IH]; intros a d; [reflexivity|].
  change (last (a :: b :: l) d) with (last (b :: l) d).
  rewrite (IH b d). symmetry. apply (IH b a).
Qed.

Lemma num_sub_zero (a : num) (q : Q) : (q == 0)%Q -> a - Fin q =n= a.
Proof. intro H. destruct a; simpl; auto. lra. Qed.

Lemma num_sub_compat_l (a b : num) (q : Q) :
  a =n= b -> a - Fin q =n= b - Fin q.
Proof. destruct a, b; simpl; auto; try contradiction. intro H. lra. Qed.

Lemma drag_through_pan (svg_left svg_top : num)
  (vw vh zm rw rh : Q) (path : list (Q * Q)) :
  ~ (zm == 0)%Q -> ~ (rw == 0)%Q -> ~ (rh == 0)%Q ->
  forall (st : State) (ax ay : Q),
    isDragging st = true ->
    dragStart st = Some (XY.mk (Fin ax) (Fin ay)) ->
    ViewBox.width (viewBox st) = Fin vw ->
    ViewBox.height (viewBox st) = Fin vh ->
    zoom st = Fin zm ->
    let svg := Some (mkDOMRect svg_left svg_top (Fin rw) (Fin rh)) in
    let st' := drag_through svg path st in
    let stop := last path (ax, ay) in
    XY.x (panOffset st')
    =n= XY.x (panOffset st) - Fin ((fst stop - ax) * (vw / zm / rw))
    /\ XY.y (panOffset st')
       =n= XY.y (panOffset st) - Fin ((snd stop - ay) * (vh / zm / rh))
    /\ dragStart st' = Some (XY.mk (Fin (fst stop)) (Fin (snd stop)))
    /\ isDragging st' = true.
Proof.
  intros Hzm Hrw Hrh.
  induction path as [|[px py] path IH];
    intros st ax ay Hdrag Hstart Hvw Hvh Hzoom svg st' stop.
  - subst st' stop. simpl. repeat split.
    + apply num_eq_sym, num_sub_zero. ring.
    + apply num_eq_sym, num_sub_zero. ring.
    + exact Hstart.
    + exact Hdrag.
  - subst st' stop. unfold drag_through. simpl fold_left.
    rewrite last_cons.
    pose proof (handleMouseMove_dragging st svg_left svg_top ax ay px py
                  vw vh zm rw rh Hdrag Hstart Hvw Hvh Hzoom Hzm Hrw Hrh)
      as E.
    fold svg in E. simpl fst. simpl snd. rewrite E.
    set (st1 := setDragStart _ _).
    destruct (IH st1 px py Hdrag eq_refl Hvw Hvh Hzoom)
      as (Ix & Iy & Is & Id).
    fold svg in Ix, Iy, Is, Id. unfold drag_through in Ix, Iy, Is, Id.
    repeat split; try assumption.
    + eapply num_eq_trans; [exact Ix|]. subst st1. simpl.
      apply num_sub_sub. ring.
    + eapply num_eq_trans; [exact Iy|]. subst st1. simpl.
      apply num_sub_sub. ring.
Qed.



(** ** What holds in every state the component reaches *)

Lemma run_invariant (P : State -> Prop) :
  P initialState ->
  (forall st ev, P st -> P (step st ev)) ->
  forall events, P (run events).
Proof.
  intros H0 Hstep events. unfold run. revert H0. generalize initialState.
  induction events as [|ev events IH]; intros st Hst; simpl.
  - exact Hst.
  - apply IH. now apply Hstep.
Qed.

Lemma handleInputChange_view_state (text : jsstring) (st : State) :
  isDragging (handleInputChange text st) = isDragging st
  /\ dragStart (handleInputChange text st) = dragStart st
  /\ tooltip (handleInputChange text st) = tooltip st
  /\ xCoordinate (handleInputChange text st) = xCoordinate st
  /\ zCoordinate (handleInputChange text st) = zCoordinate st
  /\ customPoint (handleInputChange text st) = customPoint st.
Proof.
  unfold handleInputChange.
  destruct (str_eqb (trim text) []); [repeat split; reflexivity|].
  destruct (parsePolygons text); repeat split; reflexivity.
Qed.

Lemma handleCoordinateChange_view_state (xText zText : jsstring)
  (st : State) :
  isDragging (handleCoordinateChange xText zText st) = isDragging st
  /\ dragStart (handleCoordinateChange xText zText st) = dragStart st
  /\ tooltip (handleCoordinateChange xText zText st) = tooltip st
  /\ inputText (handleCoordinateChange xText zText st) = inputText st
  /\ polygons (handleCoordinateChange xText zText st) = polygons st
  /\ error (handleCoordinateChange xText zText st) = error st.
Proof.
  unfold handleCoordinateChange.
  destruct (_ || _); repeat split; reflexivity.
Qed.

Lemma step_drag_state (st : State) (ev : Event) :
  isDragging st = negb (is_null (dragStart st)) ->
  isDragging (step st ev) = negb (is_null (dragStart (step st ev))).
Proof.
  intro H. destruct ev; cbn [step].
  - destruct (handleInputChange_view_state text st) as (E1 & E2 & _).
    now rewrite E1, E2.
  - destruct (handleCoordinateChange_view_state x0 z0 st) as (E1 & E2 & _).
    now rewrite E1, E2.
  - exact H.
  - exact H.
  - exact H.
  - unfold loadSampleData.
    destruct (handleInputChange_view_state sampleData
                (setInputText sampleData st)) as (E1 & E2 & _).
    rewrite E1, E2. exact H.
  - unfold handlePointHover. destruct (isDragging st) eqn:E; [now rewrite E|].
    destruct svg; simpl; rewrite E; exact H.
  - exact H.
  - unfold handleMouseDown.
    destruct (negb (button event =? 0)%Z); [exact H|reflexivity].
  - unfold handleMouseMove.
    destruct (isDragging st) eqn:E, (dragStart st) eqn:E', svg;
      simpl; try rewrite E; try rewrite E'; try reflexivity; try exact H.
  - reflexivity.
  - reflexivity.
Qed.

(** X14.  In every state the component reaches, [isDragging] is true
    exactly when a drag anchor is stored: the two tests that guard
    [handleMouseMove] always agree. *)
Theorem drag_anchor_matches_flag (events : list Event) :
  isDragging (run events) = true <-> dragStart (run events) <> None.
Proof.
  assert (H : isDragging (run events)
              = negb (is_null (dragStart (run events)))).
  { apply (run_invariant
             (fun st => isDragging st = negb (is_null (dragStart st)))).
    - reflexivity.
    - exact step_drag_state. }
  rewrite H. destruct (dragStart (run events)); simpl; split;
    try discriminate; try (intros _; reflexivity); intro E;
    now contradiction E.
Qed.

Lemma step_tooltip_hidden (st : State) (ev : Event) :
  (isDragging st = true -> Tooltip.visible (tooltip st) = false) ->
  isDragging (step st ev) = true ->
  Tooltip.visible (tooltip (step st ev)) = false.
Proof.
  intro H. destruct ev; cbn [step].
  - destruct (handleInputChange_view_state text st) as (E1 & _ & E3 & _).
    now rewrite E1, E3.
  - destruct (handleCoordinateChange_view_state x0 z0 st)
      as (E1 & _ & E3 & _).
    now rewrite E1, E3.
  - exact H.
  - exact H.
  - exact H.
  - unfold loadSampleData.
    destruct (handleInputChange_view_state sampleData
                (setInputText sampleData st)) as (E1 & _ & E3 & _).
    rewrite E1, E3. exact H.
  - unfold handlePointHover. destruct (isDragging st) eqn:E.
    + rewrite E. exact H.
    + destruct svg; simpl; rewrite E; discriminate.
  - intros _. reflexivity.
  - unfold handleMouseDown.
    destruct (negb (button event =? 0)%Z); [exact H|reflexivity].
  - unfold handleMouseMove.
    destruct (isDragging st) eqn:E, (dragStart st) eqn:E', svg;
      simpl; try rewrite E; try discriminate; intros _; now apply H.
  - discriminate.
  - discriminate.
Qed.

(** X15.  In every state the component reaches, the tooltip is hidden
    while a drag is in progress: pressing the button hides it and hovering
    cannot bring it back before the drag ends. *)
Theorem tooltip_hidden_while_dragging (events : list Event) :
  isDragging (run events) = true ->
  Tooltip.visible (tooltip (run events)) = false.
Proof.
  apply (run_invariant
           (fun st => isDragging st = true ->
                      Tooltip.visible (tooltip st) = false)).
  - discriminate.
  - exact step_tooltip_hidden.
Qed.

Lemma tooltip_hidden_while_dragging_witness :
  let svg := Some (mkDOMRect (Fin 0) (Fin 0) (Fin 400) (Fin 400)) in
  Tooltip.visible
    (tooltip (run [PointHover svg (pointer_at 5 5) (str "Custom Point");
                   MouseDown (pointer_at 5 5);
                   PointHover svg (pointer_at 6 6) (str "Polygon 1")]))
  = false.
Proof.
  intro svg. apply tooltip_hidden_while_dragging. reflexivity.
Defined.

Lemma handleCoordinateChange_fields (xText zText : jsstring) (st : State) :
  xCoordinate (handleCoordinateChange xText zText st) = xText
  /\ zCoordinate (handleCoordinateChange xText zText st) = zText
  /\ customPoint (handleCoordinateChange xText zText st)
     = customPoint_of xText zText.
Proof.
  unfold handleCoordinateChange, customPoint_of.
  destruct (str_eqb (trim xText) []) eqn:Ex.
  { rewrite (parseFloat_blank xText Ex). repeat split; reflexivity. }
  destruct (str_eqb (trim zText) []) eqn:Ez.
  { rewrite (parseFloat_blank zText Ez).
    change (isNaN NaN) with true. rewrite !orb_true_r.
    repeat split; reflexivity. }
  simpl.
  destruct (isNaN (parseFloat xText) || isNaN (parseFloat zText));
    repeat split; reflexivity.
Qed.

Lemma step_custom_point (st : State) (ev : Event) :
  customPoint st = customPoint_of (xCoordinate st) (zCoordinate st) ->
  customPoint (step st ev)
  = customPoint_of (xCoordinate (step st ev)) (zCoordinate (step st ev)).
Proof.
  intro H. destruct ev; cbn [step].
  - destruct (handleInputChange_view_state text st)
      as (_ & _ & _ & E4 & E5 & E6).
    now rewrite E4, E5, E6.
  - destruct (handleCoordinateChange_fields x0 z0 st) as (E1 & E2 & E3).
    now rewrite E1, E2, E3.
  - exact H.
  - exact H.
  - exact H.
  - unfold loadSampleData.
    destruct (handleInputChange_view_state sampleData
                (setInputText sampleData st))
      as (_ & _ & _ & E4 & E5 & E6).
    rewrite E4, E5, E6. exact H.
  - unfold handlePointHover. destruct (isDragging st); [exact H|].
    destruct svg; exact H.
  - exact H.
  - unfold handleMouseDown.
    destruct (negb (button event =? 0)%Z); exact H.
  - unfold handleMouseMove.
    destruct (isDragging st), (dragStart st), svg; exact H.
  - exact H.
  - exact H.
Qed.

(** X16.  In every state the component reaches, the custom point is the
    one the two coordinate fields describe: [parseFloat] of both texts
    when neither result is [NaN], and no point otherwise.  No other
    handler moves, adds or removes it. *)
Theorem customPoint_follows_fields (events : list Event) :
  customPoint (run events)
  = customPoint_of (xCoordinate (run events)) (zCoordinate (run events)).
Proof.
  apply (run_invariant
           (fun st => customPoint st
                      = customPoint_of (xCoordinate st) (zCoordinate st))).
  - reflexivity.
  - exact step_custom_point.
Qed.

Lemma handleInputChange_outcome (text : jsstring) (st : State) :
  inputText (handleInputChange text st) = text
  /\ (polygons (handleInputChange text st), error (handleInputChange text st))
     = parse_outcome text.
Proof.
  unfold handleInputChange, parse_outcome.
  destruct (str_eqb (trim text) []); [split; reflexivity|].
  destruct (parsePolygons text); split; reflexivity.
Qed.

Lemma step_outcome (st : State) (ev : Event) :
  (polygons st, error st) = parse_outcome (inputText st) ->
  (polygons (step st ev), error (step st ev))
  = parse_outcome (inputText (step st ev)).
Proof.
  intro H. destruct ev; cbn [step].
  - destruct (handleInputChange_outcome text st) as [E1 E2].
    now rewrite E1, E2.
  - destruct (handleCoordinateChange_view_state x0 z0 st)
      as (_ & _ & _ & E4 & E5 & E6).
    now rewrite E4, E5, E6.
  - exact H.
  - exact H.
  - exact H.
  - unfold loadSampleData.
    destruct (handleInputChange_outcome sampleData
                (setInputText sampleData st)) as [E1 E2].
    now rewrite E1, E2.
  - unfold handlePointHover. destruct (isDragging st); [exact H|].
    destruct svg; exact H.
  - exact H.
  - unfold handleMouseDown.
    destruct (negb (button event =? 0)%Z); exact H.
  - unfold handleMouseMove.
    destruct (isDragging st), (dragStart st), svg; exact H.
  - exact H.
  - exact H.
Qed.

Lemma parsePolygons_message (text m : jsstring) :
  parsePolygons text = inl m -> m <> [].
Proof.
  unfold parsePolygons.
  destruct (_ <- JSON_parse text ;; validateStructure _) as [e|parsed];
    [|discriminate].
  intro H. injection H as <-. discriminate.
Qed.

Lemma parse_outcome_exclusive (text : jsstring) :
  snd (parse_outcome text) <> [] -> fst (parse_outcome text) = [].
Proof.
  unfold parse_outcome.
  destruct (str_eqb (trim text) []); [reflexivity|].
  destruct (parsePolygons text); [reflexivity|].
  simpl. intro H. now contradiction H.
Qed.

(** X17.  In every state the component reaches, the polygon set and the
    error message are the ones the text of the input area stands for: a
    blank text gives no polygons and no error, a text that parses gives
    its polygons and no error, any other text gives its error message and
    no polygons.  So an error message is never shown together with
    polygons. *)
Theorem polygons_and_error_follow_text (events : list Event) :
  (polygons (run events), error (run events))
  = parse_outcome (inputText (run events))
  /\ (error (run events) <> [] -> polygons (run events) = []).
Proof.
  assert (H : (polygons (run events), error (run events))
              = parse_outcome (inputText (run events))).
  { apply (run_invariant
             (fun st => (polygons st, error st)
                        = parse_outcome (inputText st))).
    - reflexivity.
    - exact step_outcome. }
  split; [exact H|].
  intro He.
  pose proof (parse_outcome_exclusive (inputText (run events))) as Hx.
  rewrite <- H in Hx. now apply Hx.
Qed.

Lemma step_fits_unless_error (st : State) (ev : Event) :
  (error st = [] -> viewBox_fits st) ->
  error (step st ev) = [] -> viewBox_fits (step st ev).
Proof.
  assert (Hinput : forall text s,
             error (handleInputChange text s) = [] ->
             viewBox_fits (handleInputChange text s)).
  { intros text s.
    destruct (str_eqb (trim text) []) eqn:E.
    - intros _. now apply handleInputChange_blank_fits.
    - destruct (parsePolygons text) as [m|parsed] eqn:E'.
      + unfold handleInputChange. rewrite E, E'. simpl. intro Hm.
        now destruct (parsePolygons_message text m E').
      + intros _. now apply handleInputChange_success_fits with parsed. }
  intro H. destruct ev; cbn [step].
  - apply Hinput.
  - intros _. apply handleCoordinateChange_fits.
  - exact H.
  - exact H.
  - intros _. apply handleReset_fits.
  - apply Hinput.
  - unfold handlePointHover. destruct (isDragging st); [exact H|].
    destruct svg; exact H.
  - exact H.
  - unfold handleMouseDown.
    destruct (negb (button event =? 0)%Z); exact H.
  - unfold handleMouseMove.
    destruct (isDragging st), (dragStart st), svg; exact H.
  - exact H.
  - exact H.
Qed.

Lemma run_fits_unless_error (events : list Event) :
  error (run events) = [] -> viewBox_fits (run events).
Proof.
  apply (run_invariant (fun st => error st = [] -> viewBox_fits st)).
  - intros _. exact viewBox_fits_initial.
  - exact step_fits_unless_error.
Qed.

(** X18.  In every state the component reaches in which no error message
    is shown, the stored view box is the fit of the polygons and the
    custom point the state holds: the view box can be out of date only
    while a parse error is on display. *)
Theorem viewBox_fits_unless_error (events : list Event) :
  error (run events) = [] -> viewBox_fits (run events).
Proof. exact (run_fits_unless_error events). Qed.

Lemma viewBox_fits_unless_error_witness :
  viewBox_fits
    (run [LoadSample; InputChange (str "not json");
          CoordinateChange (str "1") (str "2"); InputChange (str "[]")]).
Proof.
  apply viewBox_fits_unless_error. vm_compute. reflexivity.
Defined.

Lemma run_zoom_in_range (events : list Event) :
  zoom_in_range (zoom (run events)).
Proof.
  apply (run_invariant (fun st => zoom_in_range (zoom st))).
  - exists 1%Q. split; [reflexivity|lra].
  - exact step_zoom_in_range.
Qed.



(** ** How edits compose *)

(** [handleCoordinateChange] overwrites everything an earlier call of it
    wrote. *)
Lemma handleCoordinateChange_last (a b c d : jsstring) (st : State) :
  handleCoordinateChange a b (handleCoordinateChange c d st)
  = handleCoordinateChange a b st.
Proof.
  unfold handleCoordinateChange.
  destruct (str_eqb (trim c) [] || str_eqb (trim d) []
            || isNaN (parseFloat c) || isNaN (parseFloat d));
    destruct (str_eqb (trim a) [] || str_eqb (trim b) []
              || isNaN (parseFloat a) || isNaN (parseFloat b));
    reflexivity.
Qed.

(** X20.  The two coordinate fields can be filled in either order: typing
    [vx] into the x field and [vz] into the z field leaves the component
    in the same state whichever comes first, the state of one call
    [handleCoordinateChange vx vz]. *)
Theorem coordinate_edits_commute (vx vz : jsstring) (st : State) :
  onXCoordinateChange vx (onZCoordinateChange vz st)
  = handleCoordinateChange vx vz st
  /\ onZCoordinateChange vz (onXCoordinateChange vx st)
     = handleCoordinateChange vx vz st.
Proof.
  unfold onXCoordinateChange, onZCoordinateChange. split.
  - destruct (handleCoordinateChange_fields (xCoordinate st) vz st)
      as (_ & E & _).
    rewrite E. apply handleCoordinateChange_last.
  - destruct (handleCoordinateChange_fields vx (zCoordinate st) st)
      as (E & _).
    rewrite E. apply handleCoordinateChange_last.
Qed.

(** X21.  A text that is blank or parses wipes out every trace of the
    text before it: the state after [handleInputChange] is the same as if
    the earlier text had never been entered. *)
Theorem handleInputChange_last (earlier text : jsstring) (st : State) :
  snd (parse_outcome text) = [] ->
  handleInputChange text (handleInputChange earlier st)
  = handleInputChange text st.
Proof.
  intro H.
  destruct (handleInputChange_view_state earlier st)
    as (_ & _ & _ & _ & _ & Ec).
  unfold parse_outcome in H. unfold handleInputChange at 1 3.
  rewrite Ec.
  destruct (str_eqb (trim text) []).
  { unfold handleInputChange.
    destruct (str_eqb (trim earlier) []); [reflexivity|].
    destruct (parsePolygons earlier); reflexivity. }
  destruct (parsePolygons text) as [m|parsed] eqn:E.
  { simpl in H. now destruct (parsePolygons_message text m E). }
  unfold handleInputChange.
  destruct (str_eqb (trim earlier) []); [reflexivity|].
  destruct (parsePolygons earlier); reflexivity.
Qed.

Lemma handleInputChange_last_witness :
  handleInputChange (str "[]") (handleInputChange (str "oops") initialState)
  = handleInputChange (str "[]") initialState.
Proof.
  apply handleInputChange_last. vm_compute. reflexivity.
Defined.

Lemma moves_without_drag (svg : option DOMRect) (path : list (Q * Q))
  (st : State) :
  isDragging st = false -> drag_through svg path st = st.
Proof.
  unfold drag_through. revert st.
  induction path as [|pos path IH]; intros st H; simpl; [reflexivity|].
  assert (E : handleMouseMove svg (pointer_at (fst pos) (snd pos)) st = st)
    by (unfold handleMouseMove; now rewrite H).
  rewrite E. now apply IH.
Qed.

(** X22.  Only a drag with the main button pans.  A press of any other
    button changes nothing, and while no drag is in progress the pointer
    can move over the drawing along any path without changing the
    state. *)
Theorem only_a_main_button_drag_pans (svg : option DOMRect)
  (event : MouseEvent) (path : list (Q * Q)) (st : State) :
  isDragging st = false ->
  button event <> 0%Z ->
  drag_through svg path (handleMouseDown event st) = st.
Proof.
  intros Hdrag Hbutton.
  assert (E : handleMouseDown event st = st).
  { unfold handleMouseDown.
    destruct (button event =? 0)%Z eqn:Eb; [|reflexivity].
    apply Z.eqb_eq in Eb. now contradiction Hbutton. }
  rewrite E. now apply moves_without_drag.
Qed.

Lemma only_a_main_button_drag_pans_witness :
  let svg := Some (mkDOMRect (Fin 0) (Fin 0) (Fin 400) (Fin 400)) in
  let press := mkMouseEvent 2 (Fin 10) (Fin 10) in
  drag_through svg [(20, 30); (45, 60)] (handleMouseDown press initialState)
  = initialState.
Proof.
  intros svg press. apply only_a_main_button_drag_pans.
  - reflexivity.
  - discriminate.
Defined.

(** ** What [validateStructure] accepts *)

Lemma checkPoint_accepts (i j : nat) (v : JsValue) (p : Point) :
  checkPoint i j v = inr p <-> point_value v p.
Proof.
  unfold checkPoint, point_value, hasOwnProperty, numeric_fields, bind.
  split.
  - intro H. destruct v as [| | | | |members]; try discriminate.
    exists members.
    destruct (own_property (str "hasOwnProperty") members);
      [discriminate|].
    destruct (own_property (str "x") members) as [vx|]; [|discriminate].
    destruct (own_property (str "z") members) as [vz|]; [|discriminate].
    simpl in H.
    destruct vx; try discriminate. destruct vz; try discriminate.
    injection H as <-. repeat split; reflexivity.
  - intros (members & -> & Eh & Ex & Ez).
    rewrite Eh, Ex, Ez. simpl. now destruct p.
Qed.

Lemma checkPoints_accepts (i j : nat) (points : list JsValue)
  (polygon : Polygon) :
  checkPoints i j points = inr polygon <-> Forall2 point_value points polygon.
Proof.
  revert j polygon.
  induction points as [|v points IH]; intros j polygon; simpl.
  - split.
    + intro H. injection H as <-. constructor.
    + intro H. inversion H. reflexivity.
  - unfold bind. split.
    + intro H. destruct (checkPoint i j v) as [|p] eqn:Ep; [discriminate|].
      destruct (checkPoints i (S j) points) as [|ps] eqn:Eps;
        [discriminate|].
      injection H as <-. constructor.
      * now apply (checkPoint_accepts i j).
      * now apply (IH (S j)).
    + intro H. inversion H as [|v' p points' ps Hp Hps]; subst.
      apply (checkPoint_accepts i j) in Hp. apply (IH (S j)) in Hps.
      now rewrite Hp, Hps.
Qed.

Lemma checkPolygon_accepts (i : nat) (v : JsValue) (polygon : Polygon) :
  checkPolygon i v = inr polygon <-> polygon_value v polygon.
Proof.
  unfold checkPolygon, polygon_value. split.
  - intro H. destruct v as [| | | |points|]; try discriminate.
    exists points. split; [reflexivity|]. now apply (checkPoints_accepts i 0).
  - intros (points & -> & H). now apply checkPoints_accepts.
Qed.

Lemma checkPolygons_accepts (i : nat) (values : list JsValue)
  (parsed : PolygonSet) :
  checkPolygons i values = inr parsed
  <-> Forall2 polygon_value values parsed.
Proof.
  revert i parsed.
  induction values as [|v values IH]; intros i parsed; simpl.
  - split.
    + intro H. injection H as <-. constructor.
    + intro H. inversion H. reflexivity.
  - unfold bind. split.
    + intro H. destruct (checkPolygon i v) as [|p] eqn:Ep; [discriminate|].
      destruct (checkPolygons (S i) values) as [|ps] eqn:Eps;
        [discriminate|].
      injection H as <-. constructor.
      * now apply (checkPolygon_accepts i).
      * now apply (IH (S i)).
    + intro H. inversion H as [|v' p values' ps Hp Hps]; subst.
      apply (checkPolygon_accepts i) in Hp. apply (IH (S i)) in Hps.
      now rewrite Hp, Hps.
Qed.

(** X23.  What the validation accepts, and what it returns.  The parsed
    value passes exactly when it is an array of arrays of objects that
    each have numeric own properties [x] and [z] (and no own property
    named [hasOwnProperty]); the result then has the same number of
    polygons and of points, in the same order, each point carrying the
    two numbers of its object.  Further members of a point object, and
    empty polygons, are let through. *)
Theorem validateStructure_accepts (v : JsValue) (parsed : PolygonSet) :
  validateStructure v = inr parsed
  <-> exists values, v = JArr values /\ Forall2 polygon_value values parsed.
Proof.
  unfold validateStructure. split.
  - intro H. destruct v as [| | | |values|]; try discriminate.
    exists values. split; [reflexivity|]. now apply (checkPolygons_accepts 0).
  - intros (values & -> & H). now apply checkPolygons_accepts.
Qed.

Lemma checkPoints_first_failure (i j : nat) (good : list JsValue)
  (points : Polygon) (bad : JsValue) (rest : list JsValue) (m : message) :
  Forall2 point_value good points ->
  checkPoint i (j + List.length good) bad = inl m ->
  checkPoints i j (good ++ bad :: rest) = inl m.
Proof.
  intro H. revert j.
  induction H as [|v p good points Hp Hgood IH]; intros j Hbad; simpl.
  - rewrite Nat.add_0_r in Hbad. unfold bind. now rewrite Hbad.
  - apply (checkPoint_accepts i j) in Hp. unfold bind. rewrite Hp.
    rewrite (IH (S j)); [reflexivity|].
    simpl in Hbad. now rewrite Nat.add_succ_r in Hbad.
Qed.

Lemma checkPolygons_first_failure (i : nat) (good : list JsValue)
  (parsed : PolygonSet) (bad : JsValue) (rest : list JsValue) (m : message) :
  Forall2 polygon_value good parsed ->
  checkPolygon (i + List.length good) bad = inl m ->
  checkPolygons i (good ++ bad :: rest) = inl m.
Proof.
  intro H. revert i.
  induction H as [|v p good parsed Hp Hgood IH]; intros i Hbad; simpl.
  - rewrite Nat.add_0_r in Hbad. unfold bind. now rewrite Hbad.
  - apply (checkPolygon_accepts i) in Hp. unfold bind. rewrite Hp.
    rewrite (IH (S i)); [reflexivity|].
    simpl in Hbad. now rewrite Nat.add_succ_r in Hbad.
Qed.

(** X24.  The validation reports the first offence, under its own
    position.  If the polygons before index [i] are valid and the polygon
    at [i] is not an array, the error is ["Polygon i must be an array"];
    if it is an array whose points before index [j] are valid and whose
    point at [j] is rejected, the error is the one [checkPoint] raises
    for polygon [i], point [j].  What follows the offending element is
    never looked at. *)
Theorem validateStructure_first_failure
  (good : list JsValue) (parsed : PolygonSet) (rest : list JsValue) :
  Forall2 polygon_value good parsed ->
  let i := List.length good in
  (forall bad,
      (forall points, bad <> JArr points) ->
      validateStructure (JArr (good ++ bad :: rest))
      = inl (str "Polygon " ++ String_of_index i
             ++ str " must be an array")%list)
  /\ (forall goodPoints points bad restPoints m,
         Forall2 point_value goodPoints points ->
         checkPoint i (List.length goodPoints) bad = inl m ->
         validateStructure
           (JArr (good ++ JArr (goodPoints ++ bad :: restPoints) :: rest))
         = inl m).
Proof.
  intros Hgood i. split.
  - intros bad Hbad. unfold validateStructure.
    apply checkPolygons_first_failure with parsed; [exact Hgood|].
    simpl. fold i. destruct bad; try reflexivity.
    now contradiction (Hbad elements).
  - intros goodPoints points bad restPoints m Hpoints Hm.
    unfold validateStructure.
    apply checkPolygons_first_failure with parsed; [exact Hgood|].
    simpl. fold i.
    now apply checkPoints_first_failure with points.
Qed.

Lemma validateStructure_first_failure_witness :
  validateStructure
    (JArr [JArr [JObj [(str "x", JNum (Fin 1)); (str "z", JNum (Fin 2))]];
           JArr [JObj [(str "x", JNum (Fin 3)); (str "z", JNum (Fin 4))];
                 JObj [(str "x", JNum (Fin 5))];
                 JNull];
           JNull])
  = inl (str "Point 1 in polygon 1 must have x and z properties").
Proof.
  apply (proj2 (validateStructure_first_failure
                  [JArr [JObj [(str "x", JNum (Fin 1));
                               (str "z", JNum (Fin 2))]]]
                  [[mkPoint (Fin 1) (Fin 2)]] [JNull]
                  ltac:(repeat constructor;
                        eexists; split; [reflexivity|];
                        repeat constructor;
                        eexists; repeat split; reflexivity))
               [JObj [(str "x", JNum (Fin 3)); (str "z", JNum (Fin 4))]]
               [mkPoint (Fin 3) (Fin 4)]
               (JObj [(str "x", JNum (Fin 5))]) [JNull]).
  - repeat constructor. eexists. repeat split; reflexivity.
  - vm_compute. reflexivity.
Defined.

(** ** Blank texts *)

(** White space starts no JSON value. *)
Lemma white_space_head (c : N) :
  is_white_space c = true ->
  (c =? 91)%N = false /\ (c =? 123)%N = false /\ (c =? 34)%N = false
  /\ (116 =? c)%N = false /\ (102 =? c)%N = false /\ (110 =? c)%N = false
  /\ (c =? 45)%N = false /\ is_digit c = false.
Proof.
  intro H.
  assert (Hne : forall d, is_white_space d = false -> (c =? d)%N = false).
  { intros d Hd. destruct (c =? d)%N eqn:E; [|reflexivity].
    apply N.eqb_eq in E. subst d. rewrite H in Hd. discriminate Hd. }
  repeat split;
    first [now apply Hne | rewrite N.eqb_sym; now apply Hne | idtac].
  unfold is_digit.
  destruct (48 <=? c)%N eqn:E1; [|reflexivity].
  destruct (c <=? 57)%N eqn:E2; [|reflexivity].
  apply N.leb_le in E1, E2. exfalso.
  unfold is_white_space in H.
  repeat (apply orb_true_iff in H; destruct H as [H|H]);
    repeat (apply andb_true_iff in H; destruct H as [H H']);
    repeat match goal with
           | K : (_ =? _)%N = true |- _ => apply N.eqb_eq in K
           | K : (_ <=? _)%N = true |- _ => apply N.leb_le in K
           end; lia.
Qed.

Lemma skip_ws_blank (s : jsstring) :
  forallb is_white_space s = true ->
  skip_ws s = []
  \/ exists c r, skip_ws s = c :: r /\ is_white_space c = true.
Proof.
  induction s as [|c s IH]; simpl; [now left|].
  intro H. apply andb_true_iff in H. destruct H as [Hc Hs].
  destruct (is_json_ws c); [now apply IH|].
  right. now exists c, s.
Qed.

Lemma parse_value_blank (fuel : nat) (s : jsstring) :
  forallb is_white_space s = true -> parse_value fuel s = None.
Proof.
  intro H. destruct fuel as [|fuel]; [reflexivity|].
  destruct (skip_ws_blank s H) as [E|(c & r & E & Hc)].
  - simpl. now rewrite E.
  - destruct (white_space_head c Hc)
      as (E1 & E2 & E3 & E4 & E5 & E6 & E7 & E8).
    cbn [parse_value]. rewrite E, E1, E2, E3.
    assert (Et : strip_prefix (str "true") (c :: r) = None).
    { change (str "true") with [116; 114; 117; 101]%N.
      cbn [strip_prefix]. now rewrite E4. }
    assert (Ef : strip_prefix (str "false") (c :: r) = None).
    { change (str "false") with [102; 97; 108; 115; 101]%N.
      cbn [strip_prefix]. now rewrite E5. }
    assert (En : strip_prefix (str "null") (c :: r) = None).
    { change (str "null") with [110; 117; 108; 108]%N.
      cbn [strip_prefix]. now rewrite E6. }
    rewrite Et, Ef, En.
    unfold read_number. rewrite E7. cbn [span_digits]. now rewrite E8.
Qed.

(** X25.  A blank text is not an error.  When the text is empty or holds
    white space only, [handleInputChange] clears the polygons and shows no
    message, although the parser rejects every such text: the [trim] test
    in front of [parsePolygons] is what keeps an empty input area
    quiet. *)
Theorem blank_text_is_not_an_error (text : jsstring) (st : State) :
  str_eqb (trim text) [] = true ->
  (exists m, parsePolygons text = inl m)
  /\ error (handleInputChange text st) = []
  /\ polygons (handleInputChange text st) = [].
Proof.
  intro H. split.
  - pose proof H as Hb. apply str_eqb_nil, trim_nil, trimStart_nil in Hb.
    unfold parsePolygons, bind, JSON_parse.
    rewrite (parse_value_blank _ text Hb). now eexists.
  - unfold handleInputChange. rewrite H. split; reflexivity.
Qed.

Lemma blank_text_is_not_an_error_witness :
  let text := [32; 10; 160; 9]%N in
  let st := handleInputChange text (loadSampleData initialState) in
  (exists m, parsePolygons text = inl m)
  /\ error st = [] /\ polygons st = [].
Proof.
  intros text st.
  apply (blank_text_is_not_an_error text (loadSampleData initialState)).
  reflexivity.
Defined.

(** ** Colours *)

Lemma colors_distinct (k l : nat) :
  (k < 8)%nat -> (l < 8)%nat ->
  nth_error colors k = nth_error colors l -> k = l.
Proof.
  intros Hk Hl H.
  destruct k as [|[|[|[|[|[|[|[|k]]]]]]]]; try lia;
    destruct l as [|[|[|[|[|[|[|[|l]]]]]]]]; try lia;
    try reflexivity; vm_compute in H; discriminate H.
Qed.

(** X26.  Every polygon gets a colour, the colours repeat with period 8,
    and two polygons share a colour only when their indices differ by a
    multiple of 8: the first eight polygons are all told apart. *)
Theorem getPolygonColor_cycle (i j : nat) :
  getPolygonColor i <> None
  /\ getPolygonColor (i + 8)%nat = getPolygonColor i
  /\ (getPolygonColor i = getPolygonColor j <-> (i mod 8 = j mod 8)%nat).
Proof.
  unfold getPolygonColor. change (List.length colors) with 8%nat.
  assert (Hi : (i mod 8 < 8)%nat) by (apply Nat.mod_upper_bound; discriminate).
  assert (Hj : (j mod 8 < 8)%nat) by (apply Nat.mod_upper_bound; discriminate).
  split; [|split].
  - apply nth_error_Some. exact Hi.
  - replace (i + 8)%nat with (i + 1 * 8)%nat by lia.
    now rewrite Nat.Div0.mod_add.
  - split.
    + now apply colors_distinct.
    + intros ->. reflexivity.
Qed.

(** ** The two readers of numbers *)

Lemma digit_head (c : N) :
  is_digit c = true ->
  is_white_space c = false /\ (c =? 43)%N = false /\ (c =? 45)%N = false
  /\ (73 =? c)%N = false.
Proof.
  intro H.
  assert (Hne : forall d, is_digit d = false -> (c =? d)%N = false).
  { intros d Hd. destruct (c =? d)%N eqn:E; [|reflexivity].
    apply N.eqb_eq in E. subst d. rewrite H in Hd. discriminate Hd. }
  split; [|repeat split;
           first [now apply Hne | rewrite N.eqb_sym; now apply Hne]].
  destruct (is_white_space c) eqn:E; [|reflexivity].
  destruct (white_space_head c E) as (_ & _ & _ & _ & _ & _ & _ & E8).
  rewrite H in E8. discriminate E8.
Qed.

Lemma span_digits_head (s : jsstring) (d : Z) (ds : list Z)
  (rest : jsstring) :
  span_digits s = (d :: ds, rest) ->
  exists c s', s = c :: s' /\ is_digit c = true.
Proof.
  destruct s as [|c s']; simpl; [discriminate|].
  destruct (is_digit c) eqn:E; [|discriminate].
  intros _. now exists c, s'.
Qed.

Lemma read_exponent_json (s : jsstring) (e : Z) (rest : jsstring) :
  read_json_exponent s = Some (e, rest) -> read_exponent s = e.
Proof.
  unfold read_json_exponent, read_exponent.
  destruct s as [|c s']; [intro H; now injection H as <- _|].
  destruct ((c =? 101) || (c =? 69))%N; [|intro H; now injection H as <- _].
  destruct (read_sign s') as [sign s1].
  destruct (span_digits s1) as [ds r]. simpl.
  destruct ds; [discriminate|]. intro H. now injection H as <- _.
Qed.

Lemma decimal_opp (m e : Z) : (decimal (- m) e == - decimal m e)%Q.
Proof.
  unfold decimal. destruct (0 <=? e)%Z.
  - rewrite Z.mul_opp_l. reflexivity.
  - reflexivity.
Qed.

(** The unsigned literal [parseFloat] finds where [JSON.parse] finds the
    digits of a number. *)
Lemma read_unsigned_literal_json (u : jsstring) (ip fp : list Z)
  (s1 s2 rest : jsstring) (e : Z) :
  span_digits u = (ip, s1) -> int_ok ip = true ->
  read_fraction s1 = Some (fp, s2) ->
  read_json_exponent s2 = Some (e, rest) ->
  read_unsigned_literal u
  = Some (Fin (decimal (digits_value (ip ++ fp)%list)
                       (e - Z.of_nat (List.length fp)))).
Proof.
  intros Hu Hip Hfp He.
  destruct ip as [|d ip]; [discriminate|]. clear Hip.
  destruct (span_digits_head u d ip s1 Hu) as (c & u' & -> & Hc).
  destruct (digit_head c Hc) as (_ & _ & _ & E73).
  unfold read_unsigned_literal.
  change (str "Infinity") with [73; 110; 102; 105; 110; 105; 116; 121]%N.
  cbn [strip_prefix]. rewrite E73, Hu.
  apply read_exponent_json in He.
  unfold read_fraction in Hfp.
  destruct s1 as [|c1 s1'].
  - injection Hfp as <- <-. rewrite app_nil_r. simpl in He. subst e.
    reflexivity.
  - destruct (c1 =? 46)%N.
    + destruct (span_digits s1') as [fp' s3].
      destruct fp' as [|f fp']; [discriminate|].
      injection Hfp as <- <-. now rewrite He.
    + injection Hfp as <- <-. rewrite app_nil_r, He. simpl.
      now rewrite Z.sub_0_r.
Qed.

Lemma parseFloat_read_number (s : jsstring) (n : num) (rest : jsstring) :
  read_number s = Some (n, rest) -> parseFloat s =n= n.
Proof.
  unfold read_number.
  destruct s as [|c s'].
  { simpl. discriminate. }
  destruct (c =? 45)%N eqn:E45.
  - apply N.eqb_eq in E45. subst c.
    destruct (span_digits s') as [ip s1] eqn:Hu.
    destruct (int_ok ip) eqn:Hip; [|discriminate]. simpl negb. cbv iota.
    destruct (read_fraction s1) as [[fp s2]|] eqn:Hfp; [|discriminate].
    destruct (read_json_exponent s2) as [[e r]|] eqn:He; [|discriminate].
    intro H. injection H as <- _.
    unfold parseFloat. simpl trimStart. cbv iota.
    change (45 =? 43)%N with false. change (45 =? 45)%N with true. cbv iota.
    rewrite (read_unsigned_literal_json s' ip fp s1 s2 r e Hu Hip Hfp He).
    simpl. symmetry. apply decimal_opp.
  - destruct (span_digits (c :: s')) as [ip s1] eqn:Hu.
    destruct (int_ok ip) eqn:Hip; [|discriminate]. simpl negb. cbv iota.
    destruct (read_fraction s1) as [[fp s2]|] eqn:Hfp; [|discriminate].
    destruct (read_json_exponent s2) as [[e r]|] eqn:He; [|discriminate].
    intro H. injection H as <- _.
    assert (Hc : is_digit c = true).
    { destruct ip as [|d ip]; [discriminate|].
      destruct (span_digits_head _ _ _ _ Hu) as (c' & u' & E & Hc).
      now injection E as -> _. }
    destruct (digit_head c Hc) as (Ews & E43 & _ & _).
    unfold parseFloat. cbn [trimStart]. rewrite Ews, E43, E45.
    rewrite (read_unsigned_literal_json _ ip fp s1 s2 r e Hu Hip Hfp He).
    simpl. reflexivity.
Qed.

Lemma trimStart_skip_ws (s : jsstring) : trimStart (skip_ws s) = trimStart s.
Proof.
  induction s as [|c s IH]; simpl; [reflexivity|].
  destruct (is_json_ws c) eqn:E; [|reflexivity].
  assert (Hc : is_white_space c = true).
  { unfold is_json_ws in E.
    repeat (apply orb_true_iff in E; destruct E as [E|E]);
      apply N.eqb_eq in E; subst c; reflexivity. }
  now rewrite Hc.
Qed.

Lemma parseFloat_skip_ws (s : jsstring) :
  parseFloat (skip_ws s) = parseFloat s.
Proof. unfold parseFloat. now rewrite trimStart_skip_ws. Qed.

(** X27.  The two input channels agree on numerals.  A text that
    [JSON.parse] accepts as a number, white space around it included, is
    read by [parseFloat] as the same number: a coordinate copied from the
    polygon text into a coordinate field keeps its value. *)
Theorem parseFloat_agrees_with_JSON (text : jsstring) (n : num) :
  JSON_parse text = inr (JNum n) -> parseFloat text =n= n.
Proof.
  unfold JSON_parse.
  destruct (parse_value (S (List.length text)) text) as [[v rest]|] eqn:E;
    [|discriminate].
  destruct (skip_ws rest); [|discriminate].
  intro H. injection H as ->.
  rewrite <- parseFloat_skip_ws.
  cbn [parse_value] in E.
  destruct (skip_ws text) as [|c r]; [discriminate|].
  destruct (c =? 91)%N.
  { destruct (skip_ws r) as [|c' r']; [discriminate|].
    destruct (c' =? 93)%N; [discriminate|].
    destruct (parse_elements _ r) as [[vs rest']|]; discriminate. }
  destruct (c =? 123)%N.
  { destruct (skip_ws r) as [|c' r']; [discriminate|].
    destruct (c' =? 125)%N; [discriminate|].
    destruct (parse_members _ r) as [[ms rest']|]; discriminate. }
  destruct (c =? 34)%N.
  { destruct (read_string r) as [[units rest']|]; discriminate. }
  destruct (strip_prefix (str "true") (c :: r)); [discriminate|].
  destruct (strip_prefix (str "false") (c :: r)); [discriminate|].
  destruct (strip_prefix (str "null") (c :: r)); [discriminate|].
  destruct (read_number (c :: r)) as [[m rest']|] eqn:En; [|discriminate].
  injection E as -> _.
  now apply parseFloat_read_number with rest'.
Qed.

Lemma parseFloat_agrees_with_JSON_witness :
  parseFloat (str " -12.50e1 ") =n= Fin (-1250 # 10).
Proof.
  apply parseFloat_agrees_with_JSON. vm_compute. reflexivity.
Defined.
